(** * A shallow embedding of the ultrasonic_sensor component

    The three layers of the component are modelled as they are written in
    C++:
    - [UsProcessor::process] (src/src/us_processor.cpp) and its earlier
      float-array version (src/unnamed/part_000) as pure functions;
    - [UsDriver::ping_once] (src/src/us_driver.cpp) over the two HAL
      interfaces, in a state monad that also records every HAL call;
    - [UsSensor::read_distance] (both versions in src/unnamed/part_001) over
      an abstract [IUsDriver].

    C++ [float] is IEEE-754 binary32 with round-to-nearest-even; it is
    modelled with the Standard Library's [spec_float] at precision 24 and
    maximal exponent 128, so every float operation of the code is one
    correctly rounded operation of this model. *)

From Stdlib Require Import ZArith List Bool Lia Permutation.
From Stdlib Require Import Floats.SpecFloat.
Import ListNotations.

(** ** binary32 arithmetic *)

Module F32.
Definition prec : Z := 24.
Definition emax : Z := 128.
Definition t := spec_float.

(** integer to float conversion ([static_cast<float>]) *)
Definition of_Z (z : Z) : t := binary_normalize prec emax z 0 false.
Definition of_nat (n : nat) : t := of_Z (Z.of_nat n).

Definition zero : t := S754_zero false.
Definition add (x y : t) : t := SFadd prec emax x y.
Definition sub (x y : t) : t := SFsub prec emax x y.
Definition mul (x y : t) : t := SFmul prec emax x y.
Definition div (x y : t) : t := SFdiv prec emax x y.
Definition sqrt (x : t) : t := SFsqrt prec emax x.
Definition abs (x : t) : t := SFabs x.
Definition lt (x y : t) : bool := SFltb x y.
Definition le (x y : t) : bool := SFleb x y.

(** A decimal literal [n/d] with the suffix [f]: the binary32 number
    nearest to [n/d], which is the correctly rounded quotient of the two
    (exactly representable) integers. *)
Definition lit (n d : Z) : t := div (of_Z n) (of_Z d).

(** [float -> double] (exact) and [double -> float] (rounding). *)
Definition to_double (x : t) : spec_float :=
  match x with
  | S754_finite s m e => binary_normalize 53 1024 (cond_Zopp s (Zpos m)) e false
  | y => y
  end.
Definition of_double (x : spec_float) : t :=
  match x with
  | S754_finite s m e => binary_normalize prec emax (cond_Zopp s (Zpos m)) e false
  | y => y
  end.

(** [acc += std::pow(d, 2)] with [acc] and [d] floats: [std::pow] with an
    integral exponent computes in double, where the square of a float is
    exact; the sum is rounded to double, then converted back to float. *)
Definition add_pow2 (acc d : t) : t :=
  let dd := to_double d in
  of_double (SFadd 53 1024 (to_double acc) (SFmul 53 1024 dd dd)).
End F32.

Arguments F32.add : simpl never.
Arguments F32.sub : simpl never.
Arguments F32.mul : simpl never.
Arguments F32.div : simpl never.
Arguments F32.sqrt : simpl never.
Arguments F32.lt : simpl never.
Arguments F32.le : simpl never.
Arguments F32.of_Z : simpl never.
Arguments F32.add_pow2 : simpl never.

(** ** us_types.hpp *)

Inductive UsResult :=
| OK
| WEAK_SIGNAL
| TIMEOUT
| OUT_OF_RANGE
| HIGH_VARIANCE
| INSUFFICIENT_SAMPLES
| ECHO_STUCK
| HW_FAULT.

Definition UsResult_eqb (a b : UsResult) : bool :=
  match a, b with
  | OK, OK | WEAK_SIGNAL, WEAK_SIGNAL | TIMEOUT, TIMEOUT
  | OUT_OF_RANGE, OUT_OF_RANGE | HIGH_VARIANCE, HIGH_VARIANCE
  | INSUFFICIENT_SAMPLES, INSUFFICIENT_SAMPLES
  | ECHO_STUCK, ECHO_STUCK | HW_FAULT, HW_FAULT => true
  | _, _ => false
  end.

Record Reading := mkReading { result : UsResult; cm : F32.t }.

(** [is_success] *)
Definition is_success (r : UsResult) : bool :=
  match r with
  | OK | WEAK_SIGNAL => true
  | _ => false
  end.

(** [Reading::operator==]: same tag, and for the success tags distances
    closer than [0.001f]. *)
Definition Reading_eqb (a b : Reading) : bool :=
  UsResult_eqb a.(result) b.(result) &&
  ((negb (UsResult_eqb a.(result) OK) && negb (UsResult_eqb a.(result) WEAK_SIGNAL))
   || F32.lt (F32.abs (F32.sub a.(cm) b.(cm))) (F32.lit 1 1000)).

Inductive Filter := MEDIAN | DOMINANT_CLUSTER.

(** [UsConfig]; integer fields as [Z] (uint16_t / uint32_t values). *)
Record UsConfig := mkUsConfig {
  ping_interval_ms : Z;
  ping_duration_us : Z;
  timeout_us : Z;
  filter : Filter;
  min_distance_cm : F32.t;
  max_distance_cm : F32.t;
  max_dev_cm : F32.t;
  warmup_time_ms : Z
}.

(** [UsSensor::MAX_PINGS] *)
Definition MAX_PINGS : nat := 15.

(** ** us_processor.cpp *)

Definition VALID_PING_RATIO : F32.t := F32.lit 7 10.
Definition INVALID_PING_RATIO : F32.t := F32.lit 4 10.
Definition WEAK_VARIANCE_RATIO : F32.t := F32.lit 6 10.
Definition CLUSTER_DELTA_CM : F32.t := F32.of_Z 5.
Definition CLUSTER_MIN_SIZE : nat := 2.

(** [std::sort] with [operator<] on floats, as an insertion sort. *)
Fixpoint insert_sorted (x : F32.t) (l : list F32.t) : list F32.t :=
  match l with
  | [] => [x]
  | y :: l' => if F32.lt y x then y :: insert_sorted x l' else x :: l
  end.

Fixpoint std_sort (l : list F32.t) : list F32.t :=
  match l with
  | [] => []
  | x :: l' => insert_sorted x (std_sort l')
  end.

(** [reduce_median(v, n)]: the array is the list [v], [n] its length. *)
Definition reduce_median (v : list F32.t) : F32.t :=
  let v := std_sort v in
  nth (length v / 2) v F32.zero.

(** inner loop of [reduce_dominant_cluster]: [j] walks the suffix from [i]
    while [|v[j] - v[i]| <= CLUSTER_DELTA_CM]. *)
Fixpoint grow_cluster (vi : F32.t) (vs : list F32.t) (current_sum : F32.t)
    (current_size : nat) : F32.t * nat :=
  match vs with
  | [] => (current_sum, current_size)
  | vj :: vs' =>
      if F32.le (F32.abs (F32.sub vj vi)) CLUSTER_DELTA_CM
      then grow_cluster vi vs' (F32.add current_sum vj) (S current_size)
      else (current_sum, current_size)
  end.

(** outer loop: [i] walks the sorted array; the state is
    [(best_cluster_sum, best_cluster_size)]. *)
Fixpoint scan_clusters (vs : list F32.t) (best : F32.t * nat) : F32.t * nat :=
  match vs with
  | [] => best
  | vi :: vs' =>
      let '(current_sum, current_size) := grow_cluster vi vs F32.zero 0 in
      let best' :=
        if (CLUSTER_MIN_SIZE <=? current_size) && (snd best <? current_size)
        then (current_sum, current_size) else best in
      scan_clusters vs' best'
  end.

Definition reduce_dominant_cluster (v : list F32.t) : F32.t :=
  let v := std_sort v in
  let '(best_cluster_sum, best_cluster_size) := scan_clusters v (F32.zero, 0) in
  if Nat.eqb best_cluster_size 0 then reduce_median v
  else F32.div best_cluster_sum (F32.of_nat best_cluster_size).

(** [get_std_dev(samples, count)], [count] the length of the list. *)
Definition get_std_dev (samples : list F32.t) : F32.t :=
  let count := F32.of_nat (length samples) in
  let mean := F32.div (fold_left F32.add samples F32.zero) count in
  let variance :=
    fold_left (fun acc s => F32.add_pow2 acc (F32.sub s mean)) samples F32.zero in
  F32.sqrt (F32.div variance count).

(** Loop 1 of [process]: valid samples and the two error counters. *)
Record Tally := mkTally {
  samples : list F32.t;
  valid_count : nat;
  timeouts : nat;
  out_of_range : nat
}.

Definition tally0 : Tally := mkTally [] 0 0 0.

Definition tally_ping (t : Tally) (p : Reading) : Tally :=
  if is_success p.(result)
  then mkTally (t.(samples) ++ [p.(cm)]) (S t.(valid_count)) t.(timeouts) t.(out_of_range)
  else match p.(result) with
       | TIMEOUT => mkTally t.(samples) t.(valid_count) (S t.(timeouts)) t.(out_of_range)
       | OUT_OF_RANGE => mkTally t.(samples) t.(valid_count) t.(timeouts) (S t.(out_of_range))
       | _ => t
       end.

(** [UsProcessor::process(pings, total_pings, cfg)]; [total_pings] is the
    length of the list [pings]. *)
Definition process (pings : list Reading) (cfg : UsConfig) : Reading :=
  let total_pings := length pings in
  if Nat.eqb total_pings 0 then mkReading INSUFFICIENT_SAMPLES F32.zero else
  let t := fold_left tally_ping pings tally0 in
  let ratio := F32.div (F32.of_nat t.(valid_count)) (F32.of_nat total_pings) in
  if F32.lt ratio INVALID_PING_RATIO then
    if (t.(timeouts) <=? t.(out_of_range)) && (0 <? t.(out_of_range))
    then mkReading OUT_OF_RANGE F32.zero
    else if 0 <? t.(timeouts) then mkReading TIMEOUT F32.zero
    else mkReading INSUFFICIENT_SAMPLES F32.zero
  else
  let std_dev := get_std_dev t.(samples) in
  if F32.lt cfg.(max_dev_cm) std_dev then mkReading HIGH_VARIANCE F32.zero else
  let distance_cm :=
    match cfg.(filter) with
    | MEDIAN => reduce_median t.(samples)
    | DOMINANT_CLUSTER => reduce_dominant_cluster t.(samples)
    end in
  if F32.le VALID_PING_RATIO ratio then
    if F32.lt (F32.mul cfg.(max_dev_cm) WEAK_VARIANCE_RATIO) std_dev
    then mkReading WEAK_SIGNAL distance_cm
    else mkReading OK distance_cm
  else mkReading WEAK_SIGNAL distance_cm.

(** The float-array version, src/unnamed/part_000:
    [process(raw_distances, count, total_pings, cfg)]. *)
Definition process_floats (raw_distances : list F32.t) (count total_pings : nat)
    (cfg : UsConfig) : Reading :=
  let ratio :=
    if 0 <? total_pings then F32.div (F32.of_nat count) (F32.of_nat total_pings)
    else F32.zero in
  if F32.lt ratio INVALID_PING_RATIO then mkReading INSUFFICIENT_SAMPLES F32.zero else
  let samples := firstn count raw_distances in
  let std_dev := get_std_dev samples in
  if F32.lt cfg.(max_dev_cm) std_dev then mkReading HIGH_VARIANCE F32.zero else
  let distance_cm :=
    match cfg.(filter) with
    | MEDIAN => reduce_median samples
    | DOMINANT_CLUSTER => reduce_dominant_cluster samples
    end in
  if F32.le VALID_PING_RATIO ratio then
    if F32.lt (F32.mul cfg.(max_dev_cm) WEAK_VARIANCE_RATIO) std_dev
    then mkReading WEAK_SIGNAL distance_cm
    else mkReading OK distance_cm
  else mkReading WEAK_SIGNAL distance_cm.

(** ** Effects: state, a log of calls, and fuel-bounded loops

    [M E W A] runs in a world [W] (the hardware behind the HAL, or the
    driver behind [IUsDriver]), records the calls it makes as a list of [E],
    and gives [None] when a busy-wait loop exhausts its fuel (the C++ loop
    would still be spinning). *)

Definition M (E W A : Type) : Type := W -> option (A * W * list E).

Definition pure {E W A} (a : A) : M E W A := fun w => Some (a, w, []).

Definition bind {E W A B} (m : M E W A) (k : A -> M E W B) : M E W B :=
  fun w =>
    match m w with
    | None => None
    | Some (a, w1, l1) =>
        match k a w1 with
        | None => None
        | Some (b, w2, l2) => Some (b, w2, l1 ++ l2)
        end
    end.

Definition out_of_fuel {E W A} : M E W A := fun _ => None.

Notation "x <- m ;; k" := (bind m (fun x => k))
  (at level 61, m at next level, right associativity).

(** ** HAL interfaces (i_us_gpio_hal.hpp, i_us_timer_hal.hpp) *)

Definition esp_err_t := Z.
Definition ESP_OK : esp_err_t := 0%Z.
Definition ESP_FAIL : esp_err_t := (-1)%Z.
Definition ESP_ERR_TIMEOUT : esp_err_t := 263%Z.

Definition gpio_num_t := Z.
Inductive gpio_mode_t := GPIO_MODE_INPUT | GPIO_MODE_OUTPUT.

(** Only the operations [ping_once] uses; each returns its error code and
    the next hardware state. [get_level] returns the level it wrote through
    its reference argument. *)
Class IGpioHAL (W : Type) := {
  set_direction : gpio_num_t -> gpio_mode_t -> W -> esp_err_t * W;
  set_level : gpio_num_t -> bool -> W -> esp_err_t * W;
  get_level : gpio_num_t -> W -> esp_err_t * bool * W
}.

Class ITimerHAL (W : Type) := {
  get_now_us : W -> Z * W;
  delay_us : Z -> W -> esp_err_t * W;
  delay_ms : Z -> W -> esp_err_t * W
}.

(** A HAL call as recorded in the log, with what it returned. *)
Inductive hal_call :=
| CallSetDirection (pin : gpio_num_t) (mode : gpio_mode_t) (ret : esp_err_t)
| CallSetLevel (pin : gpio_num_t) (level : bool) (ret : esp_err_t)
| CallGetLevel (pin : gpio_num_t) (ret : esp_err_t) (level : bool)
| CallGetNowUs (now : Z)
| CallDelayUs (us : Z) (ret : esp_err_t)
| CallDelayMs (ms : Z) (ret : esp_err_t).

(** The error code a call returned; [get_now_us] returns none. *)
Definition call_ret (c : hal_call) : option esp_err_t :=
  match c with
  | CallSetDirection _ _ r | CallSetLevel _ _ r | CallGetLevel _ r _
  | CallDelayUs _ r | CallDelayMs _ r => Some r
  | CallGetNowUs _ => None
  end.

Definition call_failed (c : hal_call) : bool :=
  match call_ret c with
  | Some r => negb (Z.eqb r ESP_OK)
  | None => false
  end.

(** ** us_driver.cpp *)

Definition SOUND_SPEED_CM_PER_US : F32.t := F32.lit 343 10000.

(** [uint64_t] subtraction *)
Definition u64_sub (a b : Z) : Z := ((a - b) mod 2 ^ 64)%Z.

Section UsDriver.
Context {W : Type} `{IGpioHAL W} `{ITimerHAL W}.
Variables trig_pin_ echo_pin_ : gpio_num_t.

Local Abbreviation DM := (M hal_call W).
Local Open Scope Z_scope.

Definition hal_set_direction (pin : gpio_num_t) (mode : gpio_mode_t) : DM esp_err_t :=
  fun w => let '(r, w') := set_direction pin mode w in
           Some (r, w', [CallSetDirection pin mode r]).
Definition hal_set_level (pin : gpio_num_t) (level : bool) : DM esp_err_t :=
  fun w => let '(r, w') := set_level pin level w in
           Some (r, w', [CallSetLevel pin level r]).
Definition hal_get_level (pin : gpio_num_t) : DM (esp_err_t * bool) :=
  fun w => let '(r, level, w') := get_level pin w in
           Some ((r, level), w', [CallGetLevel pin r level]).
Definition hal_get_now_us : DM Z :=
  fun w => let '(now, w') := get_now_us w in Some (now, w', [CallGetNowUs now]).
Definition hal_delay_us (us : Z) : DM esp_err_t :=
  fun w => let '(r, w') := delay_us us w in Some (r, w', [CallDelayUs us r]).
Definition hal_delay_ms (ms : Z) : DM esp_err_t :=
  fun w => let '(r, w') := delay_ms ms w in Some (r, w', [CallDelayMs ms r]).

(** [is_echo_stuck]: a failed read counts as "not stuck". *)
Definition is_echo_stuck : DM bool :=
  rl <- hal_get_level echo_pin_ ;;
  if negb (Z.eqb (fst rl) ESP_OK) then pure false else pure (snd rl).

Definition trigger (pulse_duration_us : Z) : DM esp_err_t :=
  ret <- hal_set_level trig_pin_ true ;;
  if negb (Z.eqb ret ESP_OK) then pure ret else
  ret <- hal_delay_us pulse_duration_us ;;
  if negb (Z.eqb ret ESP_OK) then pure ret else
  hal_set_level trig_pin_ false.

(** the do-while loop of [wait_rising_edge] *)
Fixpoint wait_rising_loop (fuel : nat) (start timeout_us : Z) : DM esp_err_t :=
  match fuel with
  | O => out_of_fuel
  | S fuel' =>
      rl <- hal_get_level echo_pin_ ;;
      if negb (Z.eqb (fst rl) ESP_OK) then pure (fst rl) else
      now <- hal_get_now_us ;;
      if timeout_us <? u64_sub now start then pure ESP_ERR_TIMEOUT else
      if snd rl then pure ESP_OK else wait_rising_loop fuel' start timeout_us
  end.

Definition wait_rising_edge (fuel : nat) (timeout_us : Z) : DM esp_err_t :=
  start <- hal_get_now_us ;;
  wait_rising_loop fuel start timeout_us.

(** the do-while loop of [measure_pulse] *)
Fixpoint measure_loop (fuel : nat) (echo_start timeout_us : Z) : DM esp_err_t :=
  match fuel with
  | O => out_of_fuel
  | S fuel' =>
      rl <- hal_get_level echo_pin_ ;;
      if negb (Z.eqb (fst rl) ESP_OK) then pure (fst rl) else
      now <- hal_get_now_us ;;
      if timeout_us <? u64_sub now echo_start then pure ESP_ERR_TIMEOUT else
      if snd rl then measure_loop fuel' echo_start timeout_us else pure ESP_OK
  end.

(** [measure_pulse(timeout_us, duration_us)]: the error code and the
    value left in the reference [duration_us] (0 unless [ESP_OK]). *)
Definition measure_pulse (fuel : nat) (timeout_us : Z) : DM (esp_err_t * Z) :=
  echo_start <- hal_get_now_us ;;
  ret <- measure_loop fuel echo_start timeout_us ;;
  if negb (Z.eqb ret ESP_OK) then pure (ret, 0) else
  echo_end <- hal_get_now_us ;;
  pure (ESP_OK, (u64_sub echo_end echo_start) mod 2 ^ 32).

Definition hw_fault : Reading := mkReading HW_FAULT F32.zero.

(** [UsDriver::ping_once(cfg)]; [fuel] bounds each busy-wait loop. *)
Definition ping_once (fuel : nat) (cfg : UsConfig) : DM Reading :=
  (* 1. Prepare *)
  r <- hal_set_direction echo_pin_ GPIO_MODE_OUTPUT ;;
  if negb (Z.eqb r ESP_OK) then pure hw_fault else
  r <- hal_set_level echo_pin_ false ;;
  if negb (Z.eqb r ESP_OK) then pure hw_fault else
  (* 2. Switch ECHO to input *)
  r <- hal_set_direction echo_pin_ GPIO_MODE_INPUT ;;
  if negb (Z.eqb r ESP_OK) then pure hw_fault else
  (* 3. Stuck check *)
  stuck <- is_echo_stuck ;;
  if stuck then pure (mkReading ECHO_STUCK F32.zero) else
  (* 4. Trigger *)
  ret <- trigger cfg.(ping_duration_us) ;;
  if negb (Z.eqb ret ESP_OK) then pure hw_fault else
  (* 5. Rising edge *)
  ret <- wait_rising_edge fuel cfg.(timeout_us) ;;
  if Z.eqb ret ESP_ERR_TIMEOUT then pure (mkReading TIMEOUT F32.zero) else
  if negb (Z.eqb ret ESP_OK) then pure hw_fault else
  (* 6. Pulse *)
  rd <- measure_pulse fuel cfg.(timeout_us) ;;
  let ret := fst rd in
  let duration_us := snd rd in
  if Z.eqb ret ESP_ERR_TIMEOUT then pure (mkReading TIMEOUT F32.zero) else
  if negb (Z.eqb ret ESP_OK) then pure hw_fault else
  (* 7. Convert *)
  let cm := F32.div (F32.mul (F32.of_Z duration_us) SOUND_SPEED_CM_PER_US) (F32.of_Z 2) in
  if F32.lt cm cfg.(min_distance_cm) || F32.lt cfg.(max_distance_cm) cm
  then pure (mkReading OUT_OF_RANGE F32.zero) else
  (* inter-ping delay, its error code ignored *)
  _ <- (if 0 <? cfg.(ping_interval_ms)
        then hal_delay_ms cfg.(ping_interval_ms) else pure ESP_OK) ;;
  pure (mkReading OK cm).
End UsDriver.

(** ** us_sensor.cpp: [UsSensor::read_distance] *)

(** What the orchestrator does, as seen by a test: each call of the
    driver's [ping_once] and each call of the processor. *)
Inductive sensor_event :=
| EvPing (raw : Reading)
| EvProcess (total_pings : nat).

Definition is_hw_failure (r : UsResult) : bool :=
  match r with
  | ECHO_STUCK | HW_FAULT => true
  | _ => false
  end.

Definition clamp_ping_count (ping_count : nat) : nat :=
  if (Nat.eqb ping_count 0) || (MAX_PINGS <? ping_count)
  then (if Nat.eqb ping_count 0 then 1 else MAX_PINGS)
  else ping_count.

(** The refinement the float-array orchestrator applies to an
    [INSUFFICIENT_SAMPLES] result. *)
Definition refine_insufficient (res : Reading) (t : Tally) : Reading :=
  if UsResult_eqb res.(result) INSUFFICIENT_SAMPLES then
    if (t.(timeouts) <=? t.(out_of_range)) && (0 <? t.(out_of_range))
    then mkReading OUT_OF_RANGE F32.zero
    else if 0 <? t.(timeouts) then mkReading TIMEOUT F32.zero
    else mkReading res.(result) res.(cm)
  else mkReading res.(result) res.(cm).

Section UsSensor.
Context {W : Type}.
(** [driver_->ping_once(cfg)] of the injected [IUsDriver]; [None] when it
    does not return. *)
Variable driver_ping_once : UsConfig -> W -> option (Reading * W).
Variable cfg_ : UsConfig.

Local Abbreviation SM := (M sensor_event W).

Definition call_ping_once : SM Reading :=
  fun w => match driver_ping_once cfg_ w with
           | Some (r, w') => Some (r, w', [EvPing r])
           | None => None
           end.

Definition call_process (pings : list Reading) : SM Reading :=
  fun w => Some (process pings cfg_, w, [EvProcess (length pings)]).

Definition call_process_floats (samples : list F32.t) (count total_pings : nat) : SM Reading :=
  fun w => Some (process_floats samples count total_pings cfg_, w, [EvProcess total_pings]).

(** the for loop; [inl raw] is the early return on a hardware failure *)
Fixpoint ping_loop (k : nat) (pings : list Reading) : SM (Reading + list Reading) :=
  match k with
  | O => pure (inr pings)
  | S k' =>
      raw <- call_ping_once ;;
      if is_hw_failure raw.(result) then pure (inl raw)
      else ping_loop k' (pings ++ [raw])
  end.

Definition read_distance (ping_count : nat) : SM Reading :=
  let ping_count := clamp_ping_count ping_count in
  res <- ping_loop ping_count [] ;;
  match res with
  | inl raw => pure raw
  | inr pings => call_process pings
  end.

(** The float-array version (first [read_distance] of part_001): the loop
    keeps the samples and the two counters, with the same bookkeeping as
    [tally_ping]. *)
Fixpoint ping_loop_floats (k : nat) (t : Tally) : SM (Reading + Tally) :=
  match k with
  | O => pure (inr t)
  | S k' =>
      raw <- call_ping_once ;;
      if is_hw_failure raw.(result) then pure (inl raw)
      else ping_loop_floats k' (tally_ping t raw)
  end.

Definition read_distance_floats (ping_count : nat) : SM Reading :=
  let ping_count := clamp_ping_count ping_count in
  res <- ping_loop_floats ping_count tally0 ;;
  match res with
  | inl raw => pure raw
  | inr t =>
      result <- call_process_floats t.(samples) t.(valid_count) ping_count ;;
      pure (refine_insufficient result t)
  end.
End UsSensor.

(** The production wiring: [UsSensor] over a [UsDriver] whose busy-wait
    loops get [fuel] iterations each. *)
Definition us_driver {W} `{IGpioHAL W} `{ITimerHAL W}
    (trig_pin echo_pin : gpio_num_t) (fuel : nat) (cfg : UsConfig) (w : W)
    : option (Reading * W) :=
  match ping_once trig_pin echo_pin fuel cfg w with
  | Some (r, w', _) => Some (r, w')
  | None => None
  end.

(** ** A bench HAL for concrete runs

    Pin writes and delays succeed; the clock advances by [bench_step] at
    every read; [get_level] answers from a script (and reads a healthy low
    level once the script is exhausted). *)
Record Bench := mkBench {
  bench_now : Z;
  bench_step : Z;
  bench_levels : list (esp_err_t * bool)
}.

#[export] Instance bench_gpio : IGpioHAL Bench := {
  set_direction _ _ b := (ESP_OK, b);
  set_level _ _ b := (ESP_OK, b);
  get_level _ b :=
    match b.(bench_levels) with
    | [] => (ESP_OK, false, b)
    | (r, level) :: rest => (r, level, mkBench b.(bench_now) b.(bench_step) rest)
    end
}.

#[export] Instance bench_timer : ITimerHAL Bench := {
  get_now_us b := (b.(bench_now), mkBench (b.(bench_now) + b.(bench_step))%Z b.(bench_step) b.(bench_levels));
  delay_us _ b := (ESP_OK, b);
  delay_ms _ b := (ESP_OK, b)
}.

(** [UsConfig{}]: the default configuration. *)
Definition default_cfg : UsConfig :=
  mkUsConfig 70 20 30000 MEDIAN (F32.of_Z 10) (F32.of_Z 200) (F32.of_Z 15) 600.

Definition TRIG : gpio_num_t := 4%Z.
Definition ECHO : gpio_num_t := 5%Z.

Definition run_bench (b : Bench) : option (Reading * Bench * list hal_call) :=
  ping_once TRIG ECHO 100 default_cfg b.

(** ** Vocabulary of the statements *)

(** [k] successive calls of a driver, with nothing aborting in between. *)
Fixpoint run_pings {W} (drv : UsConfig -> W -> option (Reading * W)) (cfg : UsConfig)
    (k : nat) (w : W) : option (list Reading * W) :=
  match k with
  | O => Some ([], w)
  | S k' =>
      match drv cfg w with
      | None => None
      | Some (r, w1) =>
          match run_pings drv cfg k' w1 with
          | None => None
          | Some (rs, w2) => Some (r :: rs, w2)
          end
      end
  end.

(** number of readings of a batch with a given tag, and of valid readings *)
Definition count_tag (tag : UsResult) (pings : list Reading) : nat :=
  length (List.filter (fun p => UsResult_eqb p.(result) tag) pings).
Definition count_valid (pings : list Reading) : nat :=
  length (List.filter (fun p => is_success p.(result)) pings).
Definition valid_samples (pings : list Reading) : list F32.t :=
  map cm (List.filter (fun p => is_success p.(result)) pings).

(** The two ratio gates of [process], [ratio < 0.4f] and [ratio >= 0.7f]
    with [ratio = (float)v / t], for every [uint8_t] total [t > 0] and every
    [v <= t], against the exact comparisons [v/t < 2/5] and [v/t >= 7/10]. *)
Definition ratio_gates_exact (t v : nat) : bool :=
  Bool.eqb (F32.lt (F32.div (F32.of_nat v) (F32.of_nat t)) INVALID_PING_RATIO)
           (5 * v <? 2 * t)
  && Bool.eqb (F32.le VALID_PING_RATIO (F32.div (F32.of_nat v) (F32.of_nat t)))
              (7 * t <=? 10 * v).

(** Readings used as sample batches. *)
Definition ok_at (d : Z) : Reading := mkReading OK (F32.of_Z d).
Definition timeout_reading : Reading := mkReading TIMEOUT F32.zero.
Definition out_of_range_reading : Reading := mkReading OUT_OF_RANGE F32.zero.

(** ** The dominant-cluster reduction in the words of the specification

    Sort ascending; from each start index [i] grow a contiguous run while
    each value is within [CLUSTER_DELTA_CM] of the run's first value; keep
    the first strictly longest run; if it has at least [CLUSTER_MIN_SIZE]
    members the result is its mean, otherwise the median reduction of the
    same samples. *)
Fixpoint take_while {A} (p : A -> bool) (l : list A) : list A :=
  match l with
  | [] => []
  | x :: l' => if p x then x :: take_while p l' else []
  end.

Definition spec_within_delta (first x : F32.t) : bool :=
  F32.le (F32.abs (F32.sub x first)) CLUSTER_DELTA_CM.

Definition spec_run (s : list F32.t) (i : nat) : list F32.t :=
  take_while (spec_within_delta (nth i s F32.zero)) (skipn i s).

Definition spec_pick (best r : list F32.t) : list F32.t :=
  if length best <? length r then r else best.

Definition spec_longest_run (runs : list (list F32.t)) : list F32.t :=
  fold_left spec_pick runs [].

Definition spec_mean (r : list F32.t) : F32.t :=
  F32.div (fold_left F32.add r F32.zero) (F32.of_nat (length r)).

Definition spec_dominant_cluster (v : list F32.t) : F32.t :=
  let s := std_sort v in
  let best := spec_longest_run (map (spec_run s) (seq 0 (length s))) in
  if CLUSTER_MIN_SIZE <=? length best then spec_mean best else reduce_median v.

(** ascending order for [operator<]: no element is below its predecessor *)
Fixpoint sorted_asc (l : list F32.t) : bool :=
  match l with
  | x :: (y :: _) as l' => negb (F32.lt y x) && sorted_asc l'
  | _ => true
  end.

(** the runs of a sorted array, one per start position *)
Fixpoint cluster_runs (vs : list F32.t) : list (list F32.t) :=
  match vs with
  | [] => []
  | x :: vs' => take_while (spec_within_delta x) vs :: cluster_runs vs'
  end.

(** the state [(best_cluster_sum, best_cluster_size)] of the scan against
    the longest run so far: no qualifying run yet, or the same run *)
Definition cluster_state_matches (b : F32.t * nat) (best : list F32.t) : Prop :=
  (snd b = 0 /\ length best < CLUSTER_MIN_SIZE) \/
  (snd b = length best /\ CLUSTER_MIN_SIZE <= length best /\
   fst b = fold_left F32.add best F32.zero).

(** postcondition of a computation, whatever the world and the log *)
Definition returns {E W A} (m : M E W A) (P : A -> Prop) : Prop :=
  forall w a w' l, m w = Some (a, w', l) -> P a.

(** What [ping_once] returns when a failed HAL call is the call the cycle
    ends on: [delay_ms]'s failure is ignored, a [get_level] failure whose
    code is [ESP_ERR_TIMEOUT] is taken for a timeout, any other failure is
    [HW_FAULT]. *)
Definition fault_outcome (c : hal_call) (r : Reading) : Prop :=
  match c with
  | CallDelayMs _ _ => r.(result) = OK
  | CallGetLevel _ ret _ =>
      r = (if Z.eqb ret ESP_ERR_TIMEOUT then mkReading TIMEOUT F32.zero else hw_fault)
  | _ => r = hw_fault
  end.
Definition is_delay_ms (c : hal_call) : bool :=
  match c with CallDelayMs _ _ => true | _ => false end.
Definition ok_log (l : list hal_call) : bool := forallb (fun c => negb (call_failed c)) l.
Definition fails_last (Q : hal_call -> Prop) (l : list hal_call) : Prop :=
  forall k c, nth_error l k = Some c -> call_failed c = true -> S k = length l /\ Q c.
Definition returns_log {E W A} (m : M E W A) (P : A -> list E -> Prop) : Prop :=
  forall w a w' l, m w = Some (a, w', l) -> P a l.

Definition no_delay_ms (l : list hal_call) : bool := forallb (fun c => negb (is_delay_ms c)) l.

(** the failed calls of a [ping_once] log from position [n] on: the
    stuck-check read (position 3) lets the cycle go on and does not make it
    [ECHO_STUCK]; any other failed call ends the cycle with [fault_outcome] *)
Definition hal_failure_outcome (n : nat) (r : Reading) (l : list hal_call) : Prop :=
  forall k c, nth_error l k = Some c -> call_failed c = true ->
    (n + k = 3 /\ r.(result) <> ECHO_STUCK /\ S k < length l) \/
    (n + k <> 3 /\ S k = length l /\ fault_outcome c r).

Definition tail_outcome (r : Reading) (l : list hal_call) : Prop :=
  fails_last (fun c => fault_outcome c r) l /\ r.(result) <> ECHO_STUCK.

(** the settling delay in a [ping_once] log: the last call of an [OK]
    cycle when the interval is positive, and absent from every other cycle *)
Definition settle_log (cfg : UsConfig) (r : Reading) (l : list hal_call) : Prop :=
  (r.(result) = OK -> (0 < cfg.(ping_interval_ms))%Z ->
   exists l0 x, l = l0 ++ [CallDelayMs cfg.(ping_interval_ms) x]) /\
  (r.(result) <> OK -> no_delay_ms l = true).

(** Bench runs: a failed read at the stuck check, then an echo of 1200 us;
    and a 20 us echo (0.3 cm), below [min_distance_cm]. *)
Definition bench_stuck_read_fails : Bench :=
  mkBench 0 600 [(ESP_FAIL, false); (ESP_OK, true); (ESP_OK, false)].
Definition bench_out_of_range : Bench :=
  mkBench 0 10 [(ESP_OK, false); (ESP_OK, true); (ESP_OK, false)].

(** ** us_driver.cpp: [UsDriver::init] and [UsDriver::deinit] *)

Inductive gpio_pullup_t := GPIO_PULLUP_DISABLE | GPIO_PULLUP_ENABLE.
Inductive gpio_pulldown_t := GPIO_PULLDOWN_DISABLE | GPIO_PULLDOWN_ENABLE.
Inductive gpio_int_type_t := GPIO_INTR_DISABLE | GPIO_INTR_ANYEDGE.

(** [gpio_config_t], with the fields [init] fills in. *)
Record gpio_config_t := mkGpioConfig {
  pin_bit_mask : Z;
  mode : gpio_mode_t;
  pull_up_en : gpio_pullup_t;
  pull_down_en : gpio_pulldown_t;
  intr_type : gpio_int_type_t
}.

(** The two operations of [IGpioHAL] that only [init] and [deinit] use. *)
Class IGpioPinSetup (W : Type) := {
  reset_pin : gpio_num_t -> W -> esp_err_t * W;
  config : gpio_config_t -> W -> esp_err_t * W
}.

(** The calls of [init] and [deinit]: those of the [ping_once] log, and
    the two pin-setup operations. *)
Inductive setup_call :=
| SetupHal (c : hal_call)
| CallResetPin (pin : gpio_num_t) (ret : esp_err_t)
| CallConfig (conf : gpio_config_t) (ret : esp_err_t).

Definition setup_ret (c : setup_call) : option esp_err_t :=
  match c with
  | SetupHal c => call_ret c
  | CallResetPin _ r | CallConfig _ r => Some r
  end.

Definition setup_failed (c : setup_call) : bool :=
  match setup_ret c with
  | Some r => negb (Z.eqb r ESP_OK)
  | None => false
  end.

(** a computation of the [ping_once] log, run inside [init] / [deinit] *)
Definition lift_hal {W A} (m : M hal_call W A) : M setup_call W A :=
  fun w => match m w with
           | Some (a, w', l) => Some (a, w', map SetupHal l)
           | None => None
           end.

(** [1ULL << pin] *)
Definition pin_mask (pin : gpio_num_t) : Z := (Z.shiftl 1 pin mod 2 ^ 64)%Z.

(** the [gpio_config_t] literals of [init] *)
Definition pin_conf (pin : gpio_num_t) (m : gpio_mode_t) : gpio_config_t :=
  mkGpioConfig (pin_mask pin) m GPIO_PULLUP_DISABLE GPIO_PULLDOWN_DISABLE GPIO_INTR_DISABLE.

Section UsDriverInit.
Context {W : Type} `{IGpioHAL W} `{IGpioPinSetup W} `{ITimerHAL W}.
Variables trig_pin_ echo_pin_ : gpio_num_t.

Local Abbreviation IM := (M setup_call W).
Local Open Scope Z_scope.

Definition hal_reset_pin (pin : gpio_num_t) : IM esp_err_t :=
  fun w => let '(r, w') := reset_pin pin w in Some (r, w', [CallResetPin pin r]).
Definition hal_config (conf : gpio_config_t) : IM esp_err_t :=
  fun w => let '(r, w') := config conf w in Some (r, w', [CallConfig conf r]).

(** [UsDriver::init(warmup_time_ms)] *)
Definition init (warmup_time_ms : Z) : IM esp_err_t :=
  (* TRIG as output *)
  ret <- hal_reset_pin trig_pin_ ;;
  if negb (Z.eqb ret ESP_OK) then pure ret else
  ret <- hal_config (pin_conf trig_pin_ GPIO_MODE_OUTPUT) ;;
  if negb (Z.eqb ret ESP_OK) then pure ret else
  ret <- lift_hal (hal_set_level trig_pin_ false) ;;
  if negb (Z.eqb ret ESP_OK) then pure ret else
  (* ECHO as input *)
  ret <- hal_reset_pin echo_pin_ ;;
  if negb (Z.eqb ret ESP_OK) then pure ret else
  ret <- hal_config (pin_conf echo_pin_ GPIO_MODE_INPUT) ;;
  if negb (Z.eqb ret ESP_OK) then pure ret else
  (* pulse ECHO low *)
  ret <- lift_hal (hal_set_direction echo_pin_ GPIO_MODE_OUTPUT) ;;
  if negb (Z.eqb ret ESP_OK) then pure ret else
  ret <- lift_hal (hal_set_level echo_pin_ false) ;;
  if negb (Z.eqb ret ESP_OK) then pure ret else
  (* warmup *)
  if 0 <? warmup_time_ms then
    ret <- lift_hal (hal_delay_ms warmup_time_ms) ;;
    if negb (Z.eqb ret ESP_OK) then pure ret else pure ESP_OK
  else pure ESP_OK.

(** [UsDriver::deinit()] *)
Definition deinit : IM esp_err_t :=
  ret <- lift_hal (hal_set_level trig_pin_ false) ;;
  if negb (Z.eqb ret ESP_OK) then pure ret else
  ret <- hal_reset_pin trig_pin_ ;;
  if negb (Z.eqb ret ESP_OK) then pure ret else
  ret <- lift_hal (hal_set_level echo_pin_ false) ;;
  if negb (Z.eqb ret ESP_OK) then pure ret else
  ret <- hal_reset_pin echo_pin_ ;;
  if negb (Z.eqb ret ESP_OK) then pure ret else
  pure ESP_OK.
End UsDriverInit.

(** [init] and [deinit] return [ESP_OK] when every call succeeded, and
    otherwise the code of the failed call, which is their last call. *)
Definition fail_stop (ret : esp_err_t) (l : list setup_call) : Prop :=
  (ret = ESP_OK <-> forallb (fun c => negb (setup_failed c)) l = true) /\
  (ret <> ESP_OK -> exists l0 c, l = l0 ++ [c] /\ setup_ret c = Some ret /\
                                 forallb (fun c => negb (setup_failed c)) l0 = true).

(** The calls of a successful [init]. *)
Definition init_ok_log (trig echo warmup : Z) : list setup_call :=
  [CallResetPin trig ESP_OK; CallConfig (pin_conf trig GPIO_MODE_OUTPUT) ESP_OK;
   SetupHal (CallSetLevel trig false ESP_OK);
   CallResetPin echo ESP_OK; CallConfig (pin_conf echo GPIO_MODE_INPUT) ESP_OK;
   SetupHal (CallSetDirection echo GPIO_MODE_OUTPUT ESP_OK);
   SetupHal (CallSetLevel echo false ESP_OK)] ++
  (if (0 <? warmup)%Z then [SetupHal (CallDelayMs warmup ESP_OK)] else []).

(** The calls of a successful [deinit]. *)
Definition deinit_ok_log (trig echo : Z) : list setup_call :=
  [SetupHal (CallSetLevel trig false ESP_OK); CallResetPin trig ESP_OK;
   SetupHal (CallSetLevel echo false ESP_OK); CallResetPin echo ESP_OK].

(** The bench HAL's pin setup succeeds. *)
#[export] Instance bench_pin_setup : IGpioPinSetup Bench := {
  reset_pin _ b := (ESP_OK, b);
  config _ b := (ESP_OK, b)
}.

(** A bench whose timer refuses the warmup delay. *)
Record BenchDelayFails := mkBenchDelayFails { bdf_bench : Bench }.

#[export] Instance bdf_gpio : IGpioHAL BenchDelayFails := {
  set_direction _ _ b := (ESP_OK, b);
  set_level _ _ b := (ESP_OK, b);
  get_level _ b := (ESP_OK, false, b)
}.
#[export] Instance bdf_pin_setup : IGpioPinSetup BenchDelayFails := {
  reset_pin _ b := (ESP_OK, b);
  config _ b := (ESP_OK, b)
}.
#[export] Instance bdf_timer : ITimerHAL BenchDelayFails := {
  get_now_us b := (0%Z, b);
  delay_us _ b := (ESP_OK, b);
  delay_ms _ b := (ESP_ERR_TIMEOUT, b)
}.

(** The pins [ping_once] may touch: it reads and re-directs only ECHO,
    drives ECHO only low, and writes TRIG (either level). *)
Definition pin_discipline (trig echo : gpio_num_t) (c : hal_call) : bool :=
  match c with
  | CallSetDirection p _ _ => Z.eqb p echo
  | CallSetLevel p lv _ => Z.eqb p trig || (Z.eqb p echo && negb lv)
  | CallGetLevel p _ _ => Z.eqb p echo
  | _ => true
  end.

(** the calls of the busy-wait loops: echo reads and clock reads *)
Definition loop_call (echo : gpio_num_t) (c : hal_call) : bool :=
  match c with
  | CallGetLevel p _ _ => Z.eqb p echo
  | CallGetNowUs _ => true
  | _ => false
  end.


(** what [read_distance] did: a full batch handed to [process], or an
    abort on a ping's hardware failure *)
Definition batch_outcome (cfg : UsConfig) (n : nat) (r : Reading) (l : list sensor_event) : Prop :=
  (exists ps, l = map EvPing ps ++ [EvProcess (clamp_ping_count n)] /\
              length ps = clamp_ping_count n /\
              forallb (fun p => negb (is_hw_failure p.(result))) ps = true /\
              r = process ps cfg) \/
  (exists ps, l = map EvPing (ps ++ [r]) /\ length ps < clamp_ping_count n /\
              forallb (fun p => negb (is_hw_failure p.(result))) ps = true /\
              is_hw_failure r.(result) = true).

(** A scripted driver for [read_distance]: it returns the readings of its
    list in order (and [TIMEOUT] once the list is exhausted). *)
Definition scripted_driver (cfg : UsConfig) (rs : list Reading) : option (Reading * list Reading) :=
  match rs with
  | [] => Some (timeout_reading, [])
  | r :: rs' => Some (r, rs')
  end.


Definition delay_us_failure_outcome (trig : gpio_num_t) (r : Reading) (l : list hal_call) : Prop :=
  forall d rr, In (CallDelayUs d rr) l -> rr <> ESP_OK ->
    r = hw_fault /\ exists l0, l = l0 ++ [CallSetLevel trig true ESP_OK; CallDelayUs d rr].

Definition echo_stuck_log (echo : gpio_num_t) : list hal_call :=
  [CallSetDirection echo GPIO_MODE_OUTPUT ESP_OK; CallSetLevel echo false ESP_OK;
   CallSetDirection echo GPIO_MODE_INPUT ESP_OK; CallGetLevel echo ESP_OK true].

Definition not_delay_us (c : hal_call) : bool :=
  match c with CallDelayUs _ _ => false | _ => true end.

(** * Proofs *)

(** ** Monad lemmas *)

Lemma returns_pure {E W A} (a : A) (P : A -> Prop) :
  P a -> returns (E := E) (W := W) (pure a) P.
Proof. intros HP w a' w' l Hm. unfold pure in Hm. inversion Hm. now subst. Qed.

Lemma returns_bind {E W A B} (m : M E W A) (k : A -> M E W B) (P : B -> Prop) :
  (forall a, returns (k a) P) -> returns (bind m k) P.
Proof.
  intros Hk w b w2 l Hm. unfold bind in Hm.
  destruct (m w) as [[[a w1] l1]|]; [|discriminate].
  destruct (k a w1) as [[[b' w2'] l2]|] eqn:Ek; [|discriminate].
  inversion Hm; subst. eapply Hk; eauto.
Qed.

Ltac returns_solve :=
  repeat match goal with
  | |- returns (bind _ _) _ => apply returns_bind; intro
  | |- returns (pure _) _ => apply returns_pure
  | |- returns (if ?b then _ else _) _ => destruct b
  | |- returns (let _ := _ in _) _ => cbv zeta
  end.

Lemma bind_pure_l {E W A B} (a : A) (k : A -> M E W B) w :
  bind (pure a) k w = k a w.
Proof. unfold bind, pure. simpl. destruct (k a w) as [[[b w'] l]|]; reflexivity. Qed.

(** ** The driver: tags and distances *)

Section DriverFacts.
Context {W : Type} `{IGpioHAL W} `{ITimerHAL W}.
Variables trig echo : gpio_num_t.

Lemma ping_once_returns (fuel : nat) (cfg : UsConfig) :
  returns (ping_once trig echo fuel cfg)
    (fun r => In r.(result) [OK; TIMEOUT; OUT_OF_RANGE; ECHO_STUCK; HW_FAULT] /\
              (is_success r.(result) = false -> r.(cm) = F32.zero)).
Proof. unfold ping_once. returns_solve; simpl; intuition congruence. Qed.
End DriverFacts.

Lemma ping_once_nonsuccess_cm {W} `{IGpioHAL W} `{ITimerHAL W} trig echo fuel cfg w r w' l :
  ping_once trig echo fuel cfg w = Some (r, w', l) ->
  is_success r.(result) = false -> r.(cm) = F32.zero.
Proof. intros Hp. exact (proj2 (ping_once_returns trig echo fuel cfg w r w' l Hp)). Qed.

Lemma process_nonsuccess_cm pings cfg :
  is_success (process pings cfg).(result) = false -> (process pings cfg).(cm) = F32.zero.
Proof.
  unfold process. cbv zeta.
  repeat match goal with |- context [if ?b then _ else _] => destruct b end;
  simpl; congruence.
Qed.

(** ** C10 *)

(** C10: whatever the HAL does, a cycle of [ping_once] that returns gives
    [OK], [TIMEOUT], [OUT_OF_RANGE], [ECHO_STUCK] or [HW_FAULT]; never
    [WEAK_SIGNAL], [HIGH_VARIANCE] or [INSUFFICIENT_SAMPLES]. *)
Theorem ping_once_result_tags {W} `{IGpioHAL W} `{ITimerHAL W}
    (trig echo : gpio_num_t) (fuel : nat) (cfg : UsConfig) (w : W) r w' l :
  ping_once trig echo fuel cfg w = Some (r, w', l) ->
  In r.(result) [OK; TIMEOUT; OUT_OF_RANGE; ECHO_STUCK; HW_FAULT] /\
  r.(result) <> WEAK_SIGNAL /\ r.(result) <> HIGH_VARIANCE /\
  r.(result) <> INSUFFICIENT_SAMPLES.
Proof.
  intros Hp.
  destruct (proj1 (ping_once_returns trig echo fuel cfg w r w' l Hp)) as [E|[E|[E|[E|[E|[]]]]]];
  rewrite <- E; simpl; intuition discriminate.
Qed.

Lemma ping_once_result_tags_witness :
  exists r b l,
    ping_once TRIG ECHO 100 default_cfg (mkBench 0 600 []) = Some (r, b, l) /\
    In r.(result) [OK; TIMEOUT; OUT_OF_RANGE; ECHO_STUCK; HW_FAULT].
Proof.
  destruct (ping_once TRIG ECHO 100 default_cfg (mkBench 0 600 [])) as [[[r b] l]|] eqn:E.
  - exists r, b, l. split; [reflexivity|].
    exact (proj1 (ping_once_result_tags TRIG ECHO 100 default_cfg _ r b l E)).
  - vm_compute in E. discriminate.
Defined.

(** ** C9 *)

(** C9: the readings of the Timing Engine and of the Aggregator carry
    distance 0 for every tag other than [OK] and [WEAK_SIGNAL]; [operator==]
    ignores the distance for those tags and, for the success tags, holds
    exactly when the distances differ by less than [0.001f]. *)
Theorem reading_distance_zero_unless_success :
  (forall W (HG : IGpioHAL W) (HT : ITimerHAL W) trig echo fuel cfg (w : W) r w' l,
      ping_once trig echo fuel cfg w = Some (r, w', l) ->
      is_success r.(result) = false -> r.(cm) = F32.zero) /\
  (forall pings cfg,
      is_success (process pings cfg).(result) = false ->
      (process pings cfg).(cm) = F32.zero) /\
  (forall a b,
      is_success a.(result) = false -> a.(result) = b.(result) -> Reading_eqb a b = true) /\
  (forall a b,
      is_success a.(result) = true ->
      Reading_eqb a b =
        UsResult_eqb a.(result) b.(result) &&
        F32.lt (F32.abs (F32.sub a.(cm) b.(cm))) (F32.lit 1 1000)).
Proof.
  split; [|split; [|split]].
  - intros W HG HT trig echo fuel cfg w r w' l. apply ping_once_nonsuccess_cm.
  - apply process_nonsuccess_cm.
  - intros [ra ca] [rb cb]; simpl; intros Hs <-; unfold Reading_eqb; simpl.
    destruct ra; simpl in *; congruence.
  - intros [ra ca] [rb cb]; simpl; intros Hs; unfold Reading_eqb; simpl.
    destruct ra; simpl in *; try discriminate; rewrite ?andb_false_r; reflexivity.
Qed.

Lemma reading_distance_zero_unless_success_witness :
  (process [mkReading TIMEOUT F32.zero] default_cfg).(cm) = F32.zero /\
  Reading_eqb (mkReading TIMEOUT (F32.of_Z 3)) (mkReading TIMEOUT (F32.of_Z 7)) = true /\
  Reading_eqb (mkReading OK (F32.of_Z 3)) (mkReading OK (F32.of_Z 7)) =
    UsResult_eqb OK OK && F32.lt (F32.abs (F32.sub (F32.of_Z 3) (F32.of_Z 7))) (F32.lit 1 1000).
Proof.
  split; [|split].
  - apply (proj1 (proj2 reading_distance_zero_unless_success)). vm_compute. reflexivity.
  - apply (proj1 (proj2 (proj2 reading_distance_zero_unless_success)));
      reflexivity.
  - apply (proj2 (proj2 (proj2 reading_distance_zero_unless_success))). reflexivity.
Defined.

(** ** C8 *)

(** C8: [read_distance(0)] is [read_distance(1)] and, for a [uint8_t]
    count above [MAX_PINGS], [read_distance(n)] is [read_distance(15)], for
    every driver and configuration: same reading, same pings, same final
    state; the result carries no report of the clamp. *)
Theorem read_distance_clamp {W} (drv : UsConfig -> W -> option (Reading * W)) cfg :
  read_distance drv cfg 0 = read_distance drv cfg 1 /\
  (forall n, MAX_PINGS < n -> n < 256 -> read_distance drv cfg n = read_distance drv cfg MAX_PINGS).
Proof.
  split; [reflexivity|].
  intros n H1 H2. unfold read_distance, clamp_ping_count.
  replace (MAX_PINGS <? n) with true by (symmetry; apply Nat.ltb_lt; exact H1).
  destruct n; [unfold MAX_PINGS in H1; lia|]. reflexivity.
Qed.

Lemma read_distance_clamp_witness :
  read_distance (us_driver TRIG ECHO 100) default_cfg 20 =
  read_distance (us_driver TRIG ECHO 100) default_cfg MAX_PINGS.
Proof. apply (proj2 (read_distance_clamp _ _) 20); unfold MAX_PINGS; lia. Defined.

(** ** C1 *)

Lemma ping_loop_hw_abort {W} (drv : UsConfig -> W -> option (Reading * W)) cfg i :
  forall k pings w rs w1 r w2,
    run_pings drv cfg i w = Some (rs, w1) ->
    forallb (fun p => negb (is_hw_failure p.(result))) rs = true ->
    drv cfg w1 = Some (r, w2) -> is_hw_failure r.(result) = true -> i < k ->
    ping_loop drv cfg k pings w = Some (inl r, w2, map EvPing (rs ++ [r])).
Proof.
  induction i as [|i IH]; intros k pings w rs w1 r w2 Hrun Hok Hdrv Hhw Hk.
  - simpl in Hrun. inversion Hrun; subst. destruct k as [|k]; [lia|].
    simpl. unfold bind, call_ping_once. rewrite Hdrv, Hhw. reflexivity.
  - simpl in Hrun.
    destruct (drv cfg w) as [[r0 w0]|] eqn:E0; [|discriminate].
    destruct (run_pings drv cfg i w0) as [[rs0 w3]|] eqn:E1; [|discriminate].
    inversion Hrun; subst. simpl in Hok. apply andb_prop in Hok as [Hr0 Hok].
    destruct k as [|k]; [lia|].
    simpl. unfold bind at 1, call_ping_once. rewrite E0.
    apply negb_true_iff in Hr0. rewrite Hr0.
    rewrite (IH k (pings ++ [r0]) w0 rs0 w1 r w2 E1 Hok Hdrv Hhw ltac:(lia)).
    reflexivity.
Qed.

(** C1: in a call [read_distance(n)] over the production driver, whatever
    the hardware does: if the pings before the [i]-th return no hardware
    failure and the [i]-th returns [ECHO_STUCK] or [HW_FAULT], the call
    returns that reading, whose distance is 0; the log holds exactly these
    [i+1] pings and no call of the processor, and the hardware is left as
    that ping left it. *)
Theorem read_distance_hw_failure_aborts {W} `{IGpioHAL W} `{ITimerHAL W}
    (trig echo : gpio_num_t) (fuel : nat) (cfg : UsConfig) (n i : nat) (w : W)
    rs w1 r w2 :
  run_pings (us_driver trig echo fuel) cfg i w = Some (rs, w1) ->
  forallb (fun p => negb (is_hw_failure p.(result))) rs = true ->
  us_driver trig echo fuel cfg w1 = Some (r, w2) ->
  is_hw_failure r.(result) = true ->
  i < clamp_ping_count n ->
  read_distance (us_driver trig echo fuel) cfg n w = Some (r, w2, map EvPing (rs ++ [r])) /\
  r.(cm) = F32.zero.
Proof.
  intros Hrun Hok Hdrv Hhw Hi. split.
  - unfold read_distance, bind at 1.
    rewrite (ping_loop_hw_abort _ cfg i _ [] w rs w1 r w2 Hrun Hok Hdrv Hhw Hi).
    simpl. rewrite app_nil_r. reflexivity.
  - unfold us_driver in Hdrv.
    destruct (ping_once trig echo fuel cfg w1) as [[[r' w'] l]|] eqn:E; [|discriminate].
    inversion Hdrv; subst.
    apply (ping_once_nonsuccess_cm trig echo fuel cfg w1 r w2 l E).
    destruct (result r); simpl in *; congruence.
Qed.

Lemma read_distance_hw_failure_aborts_witness :
  read_distance (us_driver TRIG ECHO 100) default_cfg 5
    (mkBench 0 600 [(ESP_OK, false); (ESP_OK, true); (ESP_OK, false); (ESP_OK, true)]) =
    Some (mkReading ECHO_STUCK F32.zero, mkBench 3000 600 [],
          map EvPing ([mkReading OK (S754_finite false 10789847 (-19))] ++
                      [mkReading ECHO_STUCK F32.zero])) /\
  (mkReading ECHO_STUCK F32.zero).(cm) = F32.zero.
Proof.
  apply (read_distance_hw_failure_aborts TRIG ECHO 100 default_cfg 5 1 _
           [mkReading OK (S754_finite false 10789847 (-19))]
           (mkBench 3000 600 [(ESP_OK, true)])).
  1-4: vm_compute; reflexivity.
  unfold clamp_ping_count; simpl; lia.
Defined.

(** ** The processor: counting and ratio gates *)

Lemma ratio_gate_table_ok :
  forallb (fun t => forallb (ratio_gates_exact t) (seq 0 (S t))) (seq 1 255) = true.
Proof. vm_compute. reflexivity. Qed.

Lemma ratio_gates (v t : nat) :
  0 < t < 256 -> v <= t ->
  F32.lt (F32.div (F32.of_nat v) (F32.of_nat t)) INVALID_PING_RATIO = (5 * v <? 2 * t) /\
  F32.le VALID_PING_RATIO (F32.div (F32.of_nat v) (F32.of_nat t)) = (7 * t <=? 10 * v).
Proof.
  intros Ht Hv.
  pose proof (proj1 (forallb_forall (fun t => forallb (ratio_gates_exact t) (seq 0 (S t)))
                                    (seq 1 255)) ratio_gate_table_ok) as T.
  specialize (T t (proj2 (in_seq 255 1 t) ltac:(lia))).
  pose proof (proj1 (forallb_forall (ratio_gates_exact t) (seq 0 (S t))) T) as T'.
  specialize (T' v (proj2 (in_seq (S t) 0 v) ltac:(lia))).
  unfold ratio_gates_exact in T'.
  apply andb_prop in T' as [A B]. apply Bool.eqb_prop in A, B. auto.
Qed.

Lemma tally_fold (pings : list Reading) (t : Tally) :
  fold_left tally_ping pings t =
  mkTally (t.(samples) ++ valid_samples pings) (t.(valid_count) + count_valid pings)
          (t.(timeouts) + count_tag TIMEOUT pings)
          (t.(out_of_range) + count_tag OUT_OF_RANGE pings).
Proof.
  revert t. induction pings as [|[rp cp] ps IH]; intros [s v to oo].
  - simpl. rewrite app_nil_r, !Nat.add_0_r. reflexivity.
  - simpl fold_left. rewrite IH.
    unfold tally_ping, valid_samples, count_valid, count_tag.
    destruct rp; simpl; f_equal; rewrite <- ?app_assoc; try lia; reflexivity.
Qed.

Lemma valid_samples_length (pings : list Reading) :
  length (valid_samples pings) = count_valid pings.
Proof. unfold valid_samples, count_valid. apply length_map. Qed.

Lemma count_valid_le (pings : list Reading) : count_valid pings <= length pings.
Proof. unfold count_valid. apply filter_length_le. Qed.

(** ** C2 *)

(** C2: for a batch of [0 < total_pings <= 255] readings whose valid ratio
    is below 0.4, [process] gives distance 0 and [OUT_OF_RANGE] if the
    batch has some [OUT_OF_RANGE] readings and at least as many as
    [TIMEOUT] ones; otherwise [TIMEOUT] if it has a [TIMEOUT] reading;
    otherwise [INSUFFICIENT_SAMPLES]. *)
Theorem process_rejection_refinement (pings : list Reading) (cfg : UsConfig) :
  0 < length pings -> length pings < 256 ->
  5 * count_valid pings < 2 * length pings ->
  process pings cfg =
    mkReading
      (if (0 <? count_tag OUT_OF_RANGE pings) &&
          (count_tag TIMEOUT pings <=? count_tag OUT_OF_RANGE pings) then OUT_OF_RANGE
       else if 0 <? count_tag TIMEOUT pings then TIMEOUT
       else INSUFFICIENT_SAMPLES)
      F32.zero.
Proof.
  intros H0 H256 Hr. unfold process.
  destruct (Nat.eqb_spec (length pings) 0) as [E|_]; [lia|].
  rewrite tally_fold. cbn [valid_count timeouts out_of_range tally0 Nat.add].
  rewrite (proj1 (ratio_gates (count_valid pings) (length pings) ltac:(lia)
                              (count_valid_le pings))).
  replace (5 * count_valid pings <? 2 * length pings) with true
    by (symmetry; apply Nat.ltb_lt; exact Hr).
  rewrite andb_comm.
  destruct ((0 <? count_tag OUT_OF_RANGE pings) &&
            (count_tag TIMEOUT pings <=? count_tag OUT_OF_RANGE pings)); [reflexivity|].
  destruct (0 <? count_tag TIMEOUT pings); reflexivity.
Qed.

Lemma process_rejection_refinement_witness :
  process [timeout_reading; out_of_range_reading; out_of_range_reading; ok_at 50; timeout_reading]
    default_cfg = mkReading OUT_OF_RANGE F32.zero.
Proof.
  apply (process_rejection_refinement
           [timeout_reading; out_of_range_reading; out_of_range_reading; ok_at 50; timeout_reading]
           default_cfg); vm_compute; lia.
Defined.

(** ** C3: the two encodings of the processor's input *)

Lemma process_encodings (pings : list Reading) (cfg : UsConfig) :
  process pings cfg =
  let t := fold_left tally_ping pings tally0 in
  refine_insufficient (process_floats t.(samples) t.(valid_count) (length pings) cfg) t.
Proof.
  unfold process, process_floats. cbv zeta.
  destruct (Nat.eqb_spec (length pings) 0) as [E|E].
  - apply length_zero_iff_nil in E. subst pings. vm_compute. reflexivity.
  - replace (0 <? length pings) with true by (symmetry; apply Nat.ltb_lt; lia).
    rewrite tally_fold. cbn [samples valid_count timeouts out_of_range tally0 Nat.add app].
    rewrite firstn_all2 by (rewrite valid_samples_length; lia).
    destruct (F32.lt _ INVALID_PING_RATIO); [reflexivity|].
    destruct (F32.lt (max_dev_cm cfg) _); [reflexivity|].
    destruct (F32.le VALID_PING_RATIO _); [destruct (F32.lt _ _)|]; reflexivity.
Qed.

Lemma ping_loop_floats_fold {W} (drv : UsConfig -> W -> option (Reading * W)) cfg k :
  forall pings w,
  ping_loop_floats drv cfg k (fold_left tally_ping pings tally0) w =
  match ping_loop drv cfg k pings w with
  | Some (inl r, w', l) => Some (inl r, w', l)
  | Some (inr ps, w', l) => Some (inr (fold_left tally_ping ps tally0), w', l)
  | None => None
  end.
Proof.
  induction k as [|k IH]; intros pings w; [reflexivity|].
  simpl. unfold bind, call_ping_once.
  destruct (drv cfg w) as [[r w1]|]; [|reflexivity].
  destruct (is_hw_failure (result r)); [reflexivity|].
  replace (tally_ping (fold_left tally_ping pings tally0) r)
    with (fold_left tally_ping (pings ++ [r]) tally0) by (rewrite fold_left_app; reflexivity).
  rewrite IH.
  destruct (ping_loop drv cfg k (pings ++ [r]) w1) as [[[[r'|ps] w'] l]|]; reflexivity.
Qed.

Lemma ping_loop_length {W} (drv : UsConfig -> W -> option (Reading * W)) cfg k :
  forall pings w ps w' l,
  ping_loop drv cfg k pings w = Some (inr ps, w', l) -> length ps = length pings + k.
Proof.
  induction k as [|k IH]; intros pings w ps w' l E.
  - simpl in E. inversion E; subst. lia.
  - simpl in E. unfold bind at 1, call_ping_once in E.
    destruct (drv cfg w) as [[r w1]|]; [|discriminate].
    destruct (is_hw_failure (result r)); [discriminate|].
    destruct (ping_loop drv cfg k (pings ++ [r]) w1) as [[[[r'|ps'] w2] l2]|] eqn:E2;
      inversion E; subst.
    apply IH in E2. rewrite length_app in E2. simpl in E2. lia.
Qed.

(** C3: the processor over the whole batch of readings equals the
    float-array processor over the valid distances and the number of
    attempted pings, followed by the float-array orchestrator's refinement
    of an [INSUFFICIENT_SAMPLES] result; and the two versions of
    [read_distance] built on them agree on every driver, configuration,
    ping count and world, log included. *)
Theorem process_encodings_agree :
  (forall (pings : list Reading) (cfg : UsConfig),
     process pings cfg =
     let t := fold_left tally_ping pings tally0 in
     refine_insufficient (process_floats t.(samples) t.(valid_count) (length pings) cfg) t) /\
  (forall (W : Type) (drv : UsConfig -> W -> option (Reading * W)) (cfg : UsConfig)
          (n : nat) (w : W),
     read_distance_floats drv cfg n w = read_distance drv cfg n w).
Proof.
  split; [exact process_encodings|].
  intros W drv cfg n w. unfold read_distance_floats, read_distance, bind at 1 3.
  change tally0 with (fold_left tally_ping [] tally0) at 1.
  rewrite ping_loop_floats_fold.
  destruct (ping_loop drv cfg (clamp_ping_count n) [] w) as [[[[r|ps] w'] l]|] eqn:E;
    [reflexivity| |reflexivity].
  apply ping_loop_length in E. simpl in E.
  unfold bind, call_process_floats, call_process, pure.
  rewrite (process_encodings ps cfg), E. simpl. rewrite ?app_nil_r. reflexivity.
Qed.

(** ** C6: a ratio of exactly 0.4 *)

(** C6: a batch of 10 readings with exactly 4 valid ones passes the
    rejection gate ([4.0f/10 < 0.4f] is false); it then gives
    [HIGH_VARIANCE] with distance 0 when the standard deviation of the
    valid distances exceeds [max_dev_cm], and [WEAK_SIGNAL] with the
    filtered distance otherwise; never [INSUFFICIENT_SAMPLES]. *)
Theorem process_ratio_at_low_threshold (pings : list Reading) (cfg : UsConfig) :
  length pings = 10 -> count_valid pings = 4 ->
  process pings cfg =
    (if F32.lt cfg.(max_dev_cm) (get_std_dev (valid_samples pings))
     then mkReading HIGH_VARIANCE F32.zero
     else mkReading WEAK_SIGNAL
            (match cfg.(filter) with
             | MEDIAN => reduce_median (valid_samples pings)
             | DOMINANT_CLUSTER => reduce_dominant_cluster (valid_samples pings)
             end)) /\
  (process pings cfg).(result) <> INSUFFICIENT_SAMPLES.
Proof.
  intros Hl Hv.
  assert (E : process pings cfg =
    (if F32.lt cfg.(max_dev_cm) (get_std_dev (valid_samples pings))
     then mkReading HIGH_VARIANCE F32.zero
     else mkReading WEAK_SIGNAL
            (match cfg.(filter) with
             | MEDIAN => reduce_median (valid_samples pings)
             | DOMINANT_CLUSTER => reduce_dominant_cluster (valid_samples pings)
             end))).
  { unfold process. rewrite Hl. simpl Nat.eqb. cbv iota.
    rewrite tally_fold. cbn [samples valid_count timeouts out_of_range tally0 Nat.add app].
    rewrite Hv.
    destruct (ratio_gates 4 10 ltac:(lia) ltac:(lia)) as [G1 G2].
    rewrite G1, G2. reflexivity. }
  split; [exact E|]. rewrite E.
  destruct (F32.lt _ _); discriminate.
Qed.

Lemma process_ratio_at_low_threshold_witness :
  process [ok_at 50; ok_at 51; ok_at 50; ok_at 51; timeout_reading; timeout_reading;
           timeout_reading; timeout_reading; timeout_reading; timeout_reading] default_cfg =
    mkReading WEAK_SIGNAL
      (reduce_median [F32.of_Z 50; F32.of_Z 51; F32.of_Z 50; F32.of_Z 51]) /\
  (process [ok_at 50; ok_at 51; ok_at 50; ok_at 51; timeout_reading; timeout_reading;
            timeout_reading; timeout_reading; timeout_reading; timeout_reading]
           default_cfg).(result) <> INSUFFICIENT_SAMPLES.
Proof.
  apply (process_ratio_at_low_threshold
           [ok_at 50; ok_at 51; ok_at 50; ok_at 51; timeout_reading; timeout_reading;
            timeout_reading; timeout_reading; timeout_reading; timeout_reading] default_cfg);
    reflexivity.
Defined.

(** C6 does not hold as stated: a batch of 10 readings with 4 valid ones
    spread over 10 cm and 100 cm (standard deviation 45 cm, above the
    15 cm of [default_cfg]) gives [HIGH_VARIANCE], not [WEAK_SIGNAL]. *)
Lemma process_ratio_at_low_threshold_high_variance :
  let b := [ok_at 10; ok_at 100; ok_at 10; ok_at 100; timeout_reading; timeout_reading;
            timeout_reading; timeout_reading; timeout_reading; timeout_reading] in
  length b = 10 /\ count_valid b = 4 /\
  process b default_cfg = mkReading HIGH_VARIANCE F32.zero.
Proof. vm_compute. split; [reflexivity | split; reflexivity]. Qed.

(** ** C7: the dominant-cluster reduction *)

Lemma SFcompare_swap (x y : spec_float) :
  SFcompare y x = option_map CompOpp (SFcompare x y).
Proof.
  destruct x as [sx|sx| |sx mx ex], y as [sy|sy| |sy my ey];
    try destruct sx; try destruct sy; simpl; try reflexivity;
    rewrite (Z.compare_antisym ex ey); destruct (Z.compare ex ey); simpl; try reflexivity;
    pose proof (Pos.compare_cont_antisym mx my Eq) as A; simpl in A; rewrite <- A;
    destruct (Pos.compare_cont Eq mx my); reflexivity.
Qed.

Lemma lt_asym (x y : F32.t) : F32.lt x y = true -> F32.lt y x = false.
Proof.
  unfold F32.lt, SFltb. rewrite (SFcompare_swap x y).
  destruct (SFcompare x y) as [[]|]; simpl; congruence.
Qed.

Lemma insert_sorted_perm (x : F32.t) (l : list F32.t) :
  Permutation (insert_sorted x l) (x :: l).
Proof.
  induction l as [|y l IH]; simpl; [reflexivity|].
  destruct (F32.lt y x); [|reflexivity].
  rewrite IH. apply perm_swap.
Qed.

Lemma std_sort_perm (l : list F32.t) : Permutation (std_sort l) l.
Proof.
  induction l as [|x l IH]; simpl; [reflexivity|].
  rewrite insert_sorted_perm, IH. reflexivity.
Qed.

Lemma insert_sorted_head (x y : F32.t) (l : list F32.t) :
  F32.lt y x = true -> sorted_asc (y :: l) = true ->
  sorted_asc (y :: insert_sorted x l) = true.
Proof.
  revert y. induction l as [|z l IH]; intros y Hyx Hs.
  - simpl. rewrite (lt_asym _ _ Hyx). reflexivity.
  - simpl in Hs. apply andb_prop in Hs as [Hzy Hs].
    simpl insert_sorted. destruct (F32.lt z x) eqn:Ezx.
    + change (negb (F32.lt z y) && sorted_asc (z :: insert_sorted x l) = true).
      rewrite Hzy. simpl. apply IH; assumption.
    + change (negb (F32.lt x y) && sorted_asc (x :: z :: l) = true).
      rewrite (lt_asym _ _ Hyx). simpl. rewrite Ezx, Hs. reflexivity.
Qed.

Lemma insert_sorted_sorted (x : F32.t) (l : list F32.t) :
  sorted_asc l = true -> sorted_asc (insert_sorted x l) = true.
Proof.
  destruct l as [|y l]; intros Hs; [reflexivity|].
  simpl insert_sorted. destruct (F32.lt y x) eqn:Eyx.
  - apply insert_sorted_head; assumption.
  - change (negb (F32.lt y x) && sorted_asc (y :: l) = true). rewrite Eyx, Hs. reflexivity.
Qed.

Lemma std_sort_sorted (l : list F32.t) : sorted_asc (std_sort l) = true.
Proof.
  induction l as [|x l IH]; [reflexivity|]. apply insert_sorted_sorted, IH.
Qed.

Lemma sorted_asc_tail (x : F32.t) (l : list F32.t) :
  sorted_asc (x :: l) = true -> sorted_asc l = true.
Proof. destruct l; [reflexivity|]. intros H. apply andb_prop in H. apply H. Qed.

Lemma std_sort_of_sorted (l : list F32.t) : sorted_asc l = true -> std_sort l = l.
Proof.
  induction l as [|x l IH]; intros Hs; [reflexivity|].
  simpl. rewrite (IH (sorted_asc_tail x l Hs)).
  destruct l as [|y l]; [reflexivity|].
  simpl in Hs. apply andb_prop in Hs as [Hyx _]. apply negb_true_iff in Hyx.
  simpl. rewrite Hyx. reflexivity.
Qed.

Lemma std_sort_idem (l : list F32.t) : std_sort (std_sort l) = std_sort l.
Proof. apply std_sort_of_sorted, std_sort_sorted. Qed.

Lemma grow_cluster_take_while (vi : F32.t) (vs : list F32.t) :
  forall sum size,
  grow_cluster vi vs sum size =
  (fold_left F32.add (take_while (spec_within_delta vi) vs) sum,
   size + length (take_while (spec_within_delta vi) vs)).
Proof.
  induction vs as [|vj vs IH]; intros sum size; simpl.
  - rewrite Nat.add_0_r. reflexivity.
  - change (F32.le (F32.abs (F32.sub vj vi)) CLUSTER_DELTA_CM)
      with (spec_within_delta vi vj).
    destruct (spec_within_delta vi vj); simpl.
    + rewrite IH. f_equal. lia.
    + rewrite Nat.add_0_r. reflexivity.
Qed.

Lemma spec_runs_suffixes (s : list F32.t) :
  map (spec_run s) (seq 0 (length s)) = cluster_runs s.
Proof.
  induction s as [|x s IH]; [reflexivity|].
  change (length (x :: s)) with (S (length s)).
  rewrite <- cons_seq, map_cons, <- seq_shift, map_map. simpl cluster_runs.
  f_equal. rewrite <- IH. apply map_ext. reflexivity.
Qed.

Lemma scan_clusters_longest (vs : list F32.t) :
  forall b best, cluster_state_matches b best ->
  cluster_state_matches (scan_clusters vs b) (fold_left spec_pick (cluster_runs vs) best).
Proof.
  induction vs as [|x vs IH]; intros [sum size] best H; [exact H|].
  cbn [scan_clusters cluster_runs fold_left]. rewrite grow_cluster_take_while.
  apply IH. unfold spec_pick, cluster_state_matches, CLUSTER_MIN_SIZE in *.
  cbn [fst snd] in *.
  set (r := take_while (spec_within_delta x) (x :: vs)).
  destruct H as [[Hs Hb]|[Hs [Hb Hsum]]]; subst;
    repeat match goal with
           | |- context [?a <=? ?b] => destruct (Nat.leb_spec a b)
           | |- context [?a <? ?b] => destruct (Nat.ltb_spec a b)
           end; simpl;
    first [ left; split; lia
          | right; split; [lia | split; [lia | reflexivity]]
          | lia ].
Qed.

(** C7: [reduce_dominant_cluster] sorts the samples ascending (a
    permutation of them, no element below its predecessor) and returns what
    the specification describes: over the runs grown from each start index
    of the sorted samples while within [CLUSTER_DELTA_CM] of the run's first
    value, the first strictly longest one, if it has at least two members,
    gives the mean of its members; otherwise the result is the median
    reduction of the same samples. On [{10, 100, 200, 300}] it falls back
    to the median, 200. *)
Theorem reduce_dominant_cluster_refines (v : list F32.t) :
  0 < length v ->
  Permutation (std_sort v) v /\ sorted_asc (std_sort v) = true /\
  reduce_dominant_cluster v = spec_dominant_cluster v /\
  reduce_dominant_cluster [F32.of_Z 10; F32.of_Z 100; F32.of_Z 200; F32.of_Z 300] =
    reduce_median [F32.of_Z 10; F32.of_Z 100; F32.of_Z 200; F32.of_Z 300] /\
  reduce_median [F32.of_Z 10; F32.of_Z 100; F32.of_Z 200; F32.of_Z 300] = F32.of_Z 200.
Proof.
  intros _. split; [apply std_sort_perm|]. split; [apply std_sort_sorted|].
  split; [|split; vm_compute; reflexivity].
  unfold reduce_dominant_cluster, spec_dominant_cluster, spec_longest_run.
  rewrite spec_runs_suffixes.
  pose proof (scan_clusters_longest (std_sort v) (F32.zero, 0) []
                ltac:(left; unfold CLUSTER_MIN_SIZE; simpl; lia)) as H.
  destruct (scan_clusters (std_sort v) (F32.zero, 0)) as [sum size].
  unfold cluster_state_matches, CLUSTER_MIN_SIZE in *. cbn [fst snd] in H.
  destruct H as [[Hs Hb]|[Hs [Hb Hsum]]]; subst.
  - destruct (Nat.leb_spec 2 (length (fold_left spec_pick (cluster_runs (std_sort v)) [])));
      [lia|].
    simpl. unfold reduce_median. rewrite std_sort_idem. reflexivity.
  - destruct (Nat.leb_spec 2 (length (fold_left spec_pick (cluster_runs (std_sort v)) [])));
      [|lia].
    destruct (Nat.eqb_spec (length (fold_left spec_pick (cluster_runs (std_sort v)) [])) 0);
      [lia|].
    reflexivity.
Qed.

Lemma reduce_dominant_cluster_refines_witness :
  Permutation (std_sort [F32.of_Z 12; F32.of_Z 10; F32.of_Z 40])
              [F32.of_Z 12; F32.of_Z 10; F32.of_Z 40] /\
  sorted_asc (std_sort [F32.of_Z 12; F32.of_Z 10; F32.of_Z 40]) = true /\
  reduce_dominant_cluster [F32.of_Z 12; F32.of_Z 10; F32.of_Z 40] =
    spec_dominant_cluster [F32.of_Z 12; F32.of_Z 10; F32.of_Z 40] /\
  reduce_dominant_cluster [F32.of_Z 10; F32.of_Z 100; F32.of_Z 200; F32.of_Z 300] =
    reduce_median [F32.of_Z 10; F32.of_Z 100; F32.of_Z 200; F32.of_Z 300] /\
  reduce_median [F32.of_Z 10; F32.of_Z 100; F32.of_Z 200; F32.of_Z 300] = F32.of_Z 200.
Proof.
  apply (reduce_dominant_cluster_refines [F32.of_Z 12; F32.of_Z 10; F32.of_Z 40]).
  simpl; lia.
Defined.

(** ** C4 and C5: the HAL calls of a ping cycle *)

Lemma returns_log_pure {E W A} (a : A) (P : A -> list E -> Prop) :
  P a [] -> returns_log (W := W) (pure a) P.
Proof. intros HP w a' w' l Hm. unfold pure in Hm. inversion Hm. now subst. Qed.

Lemma returns_log_out_of_fuel {E W A} (P : A -> list E -> Prop) :
  returns_log (W := W) out_of_fuel P.
Proof. intros w a w' l Hm. discriminate. Qed.

Lemma returns_log_bind {E W A B} (m : M E W A) (k : A -> M E W B) P (Q : B -> list E -> Prop) :
  returns_log m P ->
  (forall a l1, P a l1 -> returns_log (k a) (fun b l2 => Q b (l1 ++ l2))) ->
  returns_log (bind m k) Q.
Proof.
  intros Hm Hk w b w2 l Eb. unfold bind in Eb.
  destruct (m w) as [[[a w1] l1]|] eqn:E1; [|discriminate].
  destruct (k a w1) as [[[b' w2'] l2]|] eqn:E2; [|discriminate].
  inversion Eb; subst. exact (Hk a l1 (Hm _ _ _ _ E1) _ _ _ _ E2).
Qed.

Lemma returns_log_weaken {E W A} (m : M E W A) (P Q : A -> list E -> Prop) :
  returns_log m P -> (forall a l, P a l -> Q a l) -> returns_log m Q.
Proof. intros Hm HPQ w a w1 l Em. eauto. Qed.

Lemma fails_last_nil Q : fails_last Q [].
Proof. intros [|k] c E; discriminate. Qed.

Lemma fails_last_single (Q : hal_call -> Prop) c :
  (call_failed c = true -> Q c) -> fails_last Q [c].
Proof.
  intros HQ [|k] c' E F; simpl in E; [|destruct k; discriminate].
  inversion E; subst. auto.
Qed.

Lemma fails_last_app_ok (Q : hal_call -> Prop) l1 l2 :
  ok_log l1 = true -> fails_last Q l2 -> fails_last Q (l1 ++ l2).
Proof.
  induction l1 as [|c l1 IH]; intros Hok H2; [exact H2|].
  simpl in Hok. apply andb_prop in Hok as [Hc Hok].
  intros [|k] c' E F; simpl in E.
  - inversion E; subst. rewrite F in Hc. discriminate.
  - destruct (IH Hok H2 k c' E F) as [Hk HQ]. simpl. auto.
Qed.

Lemma fails_last_ok (Q : hal_call -> Prop) l :
  fails_last Q l -> (forall c, Q c -> call_failed c = true -> False) -> ok_log l = true.
Proof.
  intros H HQ. unfold ok_log. apply forallb_forall. intros c Hin.
  apply In_nth_error in Hin as [k Hk].
  destruct (call_failed c) eqn:F; [|reflexivity].
  exfalso. destruct (H k c Hk F) as [_ Q']. eauto.
Qed.

Lemma fails_last_weaken (Q Q' : hal_call -> Prop) l :
  fails_last Q l -> (forall c, Q c -> Q' c) -> fails_last Q' l.
Proof. intros H HQ k c E F. destruct (H k c E F). auto. Qed.

Section HalLogs.
Context {W : Type} `{IGpioHAL W} `{ITimerHAL W}.

Lemma hal_get_level_log p :
  returns_log (hal_get_level p) (fun rl l => l = [CallGetLevel p (fst rl) (snd rl)]).
Proof.
  intros w a w' l E. unfold hal_get_level in E.
  destruct (get_level p w) as [[r lv] w1]. inversion E. reflexivity.
Qed.
Lemma hal_get_now_us_log :
  returns_log hal_get_now_us (fun now l => l = [CallGetNowUs now]).
Proof.
  intros w a w' l E. unfold hal_get_now_us in E.
  destruct (get_now_us w) as [now w1]. inversion E. reflexivity.
Qed.
Lemma hal_set_level_log p lv :
  returns_log (hal_set_level p lv) (fun r l => l = [CallSetLevel p lv r]).
Proof.
  intros w a w' l E. unfold hal_set_level in E.
  destruct (set_level p lv w) as [r w1]. inversion E. reflexivity.
Qed.
Lemma hal_set_direction_log p m :
  returns_log (hal_set_direction p m) (fun r l => l = [CallSetDirection p m r]).
Proof.
  intros w a w' l E. unfold hal_set_direction in E.
  destruct (set_direction p m w) as [r w1]. inversion E. reflexivity.
Qed.
Lemma hal_delay_us_log us :
  returns_log (hal_delay_us us) (fun r l => l = [CallDelayUs us r]).
Proof.
  intros w a w' l E. unfold hal_delay_us in E.
  destruct (delay_us us w) as [r w1]. inversion E. reflexivity.
Qed.
Lemma hal_delay_ms_log ms :
  returns_log (hal_delay_ms ms) (fun r l => l = [CallDelayMs ms r]).
Proof.
  intros w a w' l E. unfold hal_delay_ms in E.
  destruct (delay_ms ms w) as [r w1]. inversion E. reflexivity.
Qed.
End HalLogs.

Lemma fails_last_ok_all (Q : hal_call -> Prop) l : ok_log l = true -> fails_last Q l.
Proof. intros H. rewrite <- (app_nil_r l). apply fails_last_app_ok; [exact H | apply fails_last_nil]. Qed.

Section LoopLogs.
Context {W : Type} `{IGpioHAL W} `{ITimerHAL W}.
Variables trig echo : gpio_num_t.

Lemma wait_rising_loop_log fuel : forall start t,
  returns_log (wait_rising_loop echo fuel start t)
    (fun ret l => fails_last (fun c => exists lv, c = CallGetLevel echo ret lv) l /\
                  no_delay_ms l = true).
Proof.
  induction fuel as [|fuel IH]; intros start t; [apply returns_log_out_of_fuel|].
  simpl. eapply returns_log_bind; [apply hal_get_level_log|].
  intros [r lv] l1 ->. cbn [fst snd].
  destruct (negb (Z.eqb r ESP_OK)) eqn:Er.
  - apply returns_log_pure. split; [|reflexivity].
    apply fails_last_single. eauto.
  - eapply returns_log_bind; [apply hal_get_now_us_log|]. intros now l2 ->.
    assert (Hok : ok_log [CallGetLevel echo r lv; CallGetNowUs now] = true)
      by (unfold ok_log, call_failed; simpl; rewrite Er; reflexivity).
    destruct (t <? u64_sub now start)%Z; [|destruct lv].
    1,2: apply returns_log_pure; split; [apply fails_last_ok_all; exact Hok | reflexivity].
    eapply returns_log_weaken; [apply IH|]. intros ret l3 [HF HD]. split.
    + apply (fails_last_app_ok _ _ l3 Hok HF).
    + exact HD.
Qed.

Lemma measure_loop_log fuel : forall start t,
  returns_log (measure_loop echo fuel start t)
    (fun ret l => fails_last (fun c => exists lv, c = CallGetLevel echo ret lv) l /\
                  no_delay_ms l = true).
Proof.
  induction fuel as [|fuel IH]; intros start t; [apply returns_log_out_of_fuel|].
  simpl. eapply returns_log_bind; [apply hal_get_level_log|].
  intros [r lv] l1 ->. cbn [fst snd].
  destruct (negb (Z.eqb r ESP_OK)) eqn:Er.
  - apply returns_log_pure. split; [|reflexivity].
    apply fails_last_single. eauto.
  - eapply returns_log_bind; [apply hal_get_now_us_log|]. intros now l2 ->.
    assert (Hok : ok_log [CallGetLevel echo r lv; CallGetNowUs now] = true)
      by (unfold ok_log, call_failed; simpl; rewrite Er; reflexivity).
    destruct (t <? u64_sub now start)%Z; [|destruct lv].
    1,3: apply returns_log_pure; split; [apply fails_last_ok_all; exact Hok | reflexivity].
    eapply returns_log_weaken; [apply IH|]. intros ret l3 [HF HD]. split.
    + apply (fails_last_app_ok _ _ l3 Hok HF).
    + exact HD.
Qed.

Lemma wait_rising_edge_log fuel t :
  returns_log (wait_rising_edge echo fuel t)
    (fun ret l => fails_last (fun c => exists lv, c = CallGetLevel echo ret lv) l /\
                  no_delay_ms l = true).
Proof.
  unfold wait_rising_edge. eapply returns_log_bind; [apply hal_get_now_us_log|].
  intros start l1 ->. eapply returns_log_weaken; [apply wait_rising_loop_log|].
  intros ret l2 [HF HD]. split; [|exact HD].
  apply (fails_last_app_ok _ [CallGetNowUs start] l2 eq_refl HF).
Qed.

Lemma get_level_failed_ret (ret : esp_err_t) :
  forall c, (exists lv, c = CallGetLevel echo ret lv) -> call_failed c = true ->
  ret <> ESP_OK.
Proof.
  intros c [lv ->]. unfold call_failed. simpl. intros F E. rewrite E in F. discriminate.
Qed.

Lemma measure_pulse_log fuel t :
  returns_log (measure_pulse echo fuel t)
    (fun rd l => fails_last (fun c => exists lv, c = CallGetLevel echo (fst rd) lv) l /\
                 no_delay_ms l = true).
Proof.
  unfold measure_pulse. eapply returns_log_bind; [apply hal_get_now_us_log|].
  intros start l1 ->. eapply returns_log_bind; [apply measure_loop_log|].
  intros ret l2 [HF HD].
  destruct (negb (Z.eqb ret ESP_OK)) eqn:Er.
  - apply returns_log_pure. rewrite app_nil_r. split.
    + apply (fails_last_app_ok _ [CallGetNowUs start] l2 eq_refl HF).
    + exact HD.
  - eapply returns_log_bind; [apply hal_get_now_us_log|]. intros now l3 ->.
    apply returns_log_pure. apply negb_false_iff, Z.eqb_eq in Er. subst ret.
    assert (Hok : ok_log l2 = true).
    { apply (fails_last_ok _ _ HF). intros c Hc F. exact (get_level_failed_ret _ c Hc F eq_refl). }
    split.
    + apply fails_last_ok_all. unfold ok_log in *. rewrite !forallb_app. simpl.
      rewrite Hok. reflexivity.
    + unfold no_delay_ms in *. rewrite !forallb_app. simpl. rewrite HD. reflexivity.
Qed.

Lemma trigger_log d :
  returns_log (trigger trig d)
    (fun ret l => fails_last (fun c => (exists lv, c = CallSetLevel trig lv ret) \/
                                       c = CallDelayUs d ret) l /\
                  l <> [] /\ no_delay_ms l = true).
Proof.
  unfold trigger. eapply returns_log_bind; [apply hal_set_level_log|].
  intros r1 l1 ->. destruct (negb (Z.eqb r1 ESP_OK)) eqn:E1.
  - apply returns_log_pure. split; [|split; [discriminate | reflexivity]].
    apply fails_last_single. eauto.
  - eapply returns_log_bind; [apply hal_delay_us_log|]. intros r2 l2 ->.
    assert (Hok1 : ok_log [CallSetLevel trig true r1] = true)
      by (unfold ok_log, call_failed; simpl; rewrite E1; reflexivity).
    destruct (negb (Z.eqb r2 ESP_OK)) eqn:E2.
    + apply returns_log_pure. split; [|split; [discriminate | reflexivity]].
      rewrite app_nil_r. apply (fails_last_app_ok _ _ [_] Hok1).
      apply fails_last_single. auto.
    + eapply returns_log_weaken; [apply hal_set_level_log|]. intros r3 l3 ->.
      split; [|split; [discriminate | reflexivity]].
      assert (Hok2 : ok_log [CallDelayUs d r2] = true)
        by (unfold ok_log, call_failed; simpl; rewrite E2; reflexivity).
      apply (fails_last_app_ok _ _ _ Hok1), (fails_last_app_ok _ _ _ Hok2).
      apply fails_last_single. eauto.
Qed.

Lemma is_echo_stuck_log :
  returns_log (is_echo_stuck echo)
    (fun stuck l => exists r lv, l = [CallGetLevel echo r lv] /\
                                 (stuck = true -> r = ESP_OK)).
Proof.
  unfold is_echo_stuck. eapply returns_log_bind; [apply hal_get_level_log|].
  intros [r lv] l1 ->. cbn [fst snd].
  destruct (negb (Z.eqb r ESP_OK)) eqn:Er; apply returns_log_pure; exists r, lv;
    rewrite app_nil_r; split; auto.
  - intros Hf. discriminate Hf.
  - intros _. apply negb_false_iff, Z.eqb_eq in Er. exact Er.
Qed.
End LoopLogs.

Lemma hal_failure_outcome_cons_ok n r c l :
  call_failed c = false -> hal_failure_outcome (S n) r l -> hal_failure_outcome n r (c :: l).
Proof.
  intros Hc H [|k] c' E F; simpl in E.
  - inversion E; subst. congruence.
  - destruct (H k c' E F) as [[A [B C]]|[A [B C]]]; [left|right]; simpl; repeat split; auto; lia.
Qed.

Lemma hal_failure_outcome_last n r c :
  n <> 3 -> fault_outcome c r -> hal_failure_outcome n r [c].
Proof.
  intros Hn Ho [|k] c' E F; simpl in E; [|destruct k; discriminate].
  inversion E; subst. right. simpl. repeat split; auto; lia.
Qed.

Lemma hal_failure_outcome_stuck_check r g l :
  tail_outcome r l -> l <> [] -> hal_failure_outcome 3 r (g :: l).
Proof.
  intros [HF Hr] Hne [|k] c E F; simpl in E.
  - left. destruct l; [congruence|]. simpl. repeat split; auto; lia.
  - destruct (HF k c E F) as [A B]. right. simpl. repeat split; auto; lia.
Qed.

Lemma hal_failure_outcome_ok n r l : ok_log l = true -> hal_failure_outcome n r l.
Proof.
  intros Hok k c E F. exfalso. unfold ok_log in Hok. rewrite forallb_forall in Hok.
  specialize (Hok c (nth_error_In l k E)). rewrite F in Hok. discriminate.
Qed.

Lemma tail_outcome_app_ok r l1 l2 :
  ok_log l1 = true -> tail_outcome r l2 -> tail_outcome r (l1 ++ l2).
Proof. intros Hok [HF Hr]. split; [apply fails_last_app_ok|]; assumption. Qed.

Lemma call_ok_of (c : hal_call) (r : esp_err_t) :
  call_ret c = Some r -> negb (Z.eqb r ESP_OK) = false -> ok_log [c] = true.
Proof. intros Hc Hr. unfold ok_log, call_failed. simpl. rewrite Hc, Hr. reflexivity. Qed.

Section PingOnceLogs.
Context {W : Type} `{IGpioHAL W} `{ITimerHAL W}.
Variables trig echo : gpio_num_t.

Lemma ping_once_tail_log fuel cfg :
  returns_log
    (ret <- trigger trig cfg.(ping_duration_us) ;;
     if negb (Z.eqb ret ESP_OK) then pure hw_fault else
     ret <- wait_rising_edge echo fuel cfg.(timeout_us) ;;
     if Z.eqb ret ESP_ERR_TIMEOUT then pure (mkReading TIMEOUT F32.zero) else
     if negb (Z.eqb ret ESP_OK) then pure hw_fault else
     rd <- measure_pulse echo fuel cfg.(timeout_us) ;;
     let ret := fst rd in
     let duration_us := snd rd in
     if Z.eqb ret ESP_ERR_TIMEOUT then pure (mkReading TIMEOUT F32.zero) else
     if negb (Z.eqb ret ESP_OK) then pure hw_fault else
     let cm := F32.div (F32.mul (F32.of_Z duration_us) SOUND_SPEED_CM_PER_US) (F32.of_Z 2) in
     if F32.lt cm cfg.(min_distance_cm) || F32.lt cfg.(max_distance_cm) cm
     then pure (mkReading OUT_OF_RANGE F32.zero) else
     _ <- (if (0 <? cfg.(ping_interval_ms))%Z
           then hal_delay_ms cfg.(ping_interval_ms) else pure ESP_OK) ;;
     pure (mkReading OK cm))
    (fun r l => tail_outcome r l /\ l <> []).
Proof.
  eapply returns_log_bind; [apply trigger_log|]. intros ret lt [HF [Hne _]].
  destruct (negb (Z.eqb ret ESP_OK)) eqn:E.
  { apply returns_log_pure. rewrite app_nil_r. split; [split|exact Hne].
    - eapply fails_last_weaken; [exact HF|]. intros c [[lv ->]| ->]; reflexivity.
    - discriminate. }
  assert (Hok : ok_log lt = true).
  { apply (fails_last_ok _ _ HF). intros c [[lv ->]| ->]; unfold call_failed; simpl;
      rewrite E; discriminate. }
  apply (returns_log_weaken _ tail_outcome);
    [|intros b l2 Ht; split; [apply tail_outcome_app_ok; assumption|]];
    [|destruct lt; [congruence | discriminate]].
  eapply returns_log_bind; [apply wait_rising_edge_log|]. intros ret2 lw [HF2 _].
  destruct (Z.eqb ret2 ESP_ERR_TIMEOUT) eqn:Et.
  { apply returns_log_pure. rewrite app_nil_r. split; [|discriminate].
    eapply fails_last_weaken; [exact HF2|]. intros c [lv ->]. simpl. rewrite Et. reflexivity. }
  destruct (negb (Z.eqb ret2 ESP_OK)) eqn:E2.
  { apply returns_log_pure. rewrite app_nil_r. split; [|discriminate].
    eapply fails_last_weaken; [exact HF2|]. intros c [lv ->]. simpl. rewrite Et. reflexivity. }
  assert (Hok2 : ok_log lw = true).
  { apply (fails_last_ok _ _ HF2). intros c [lv ->]. unfold call_failed; simpl.
    rewrite E2. discriminate. }
  apply (returns_log_weaken _ tail_outcome); [|intros b l2 Ht; apply tail_outcome_app_ok; assumption].
  eapply returns_log_bind; [apply measure_pulse_log|]. intros rd lm [HF3 _]. cbv zeta.
  destruct (Z.eqb (fst rd) ESP_ERR_TIMEOUT) eqn:Et3.
  { apply returns_log_pure. rewrite app_nil_r. split; [|discriminate].
    eapply fails_last_weaken; [exact HF3|]. intros c [lv ->]. simpl. rewrite Et3. reflexivity. }
  destruct (negb (Z.eqb (fst rd) ESP_OK)) eqn:E3.
  { apply returns_log_pure. rewrite app_nil_r. split; [|discriminate].
    eapply fails_last_weaken; [exact HF3|]. intros c [lv ->]. simpl. rewrite Et3. reflexivity. }
  assert (Hok3 : ok_log lm = true).
  { apply (fails_last_ok _ _ HF3). intros c [lv ->]. unfold call_failed; simpl.
    rewrite E3. discriminate. }
  apply (returns_log_weaken _ tail_outcome); [|intros b l2 Ht; apply tail_outcome_app_ok; assumption].
  destruct (_ || _).
  { apply returns_log_pure. split; [apply fails_last_nil | discriminate]. }
  destruct (0 <? ping_interval_ms cfg)%Z.
  - eapply returns_log_bind; [apply hal_delay_ms_log|]. intros x l5 ->.
    apply returns_log_pure. split; [|discriminate].
    apply fails_last_single. intros _. reflexivity.
  - eapply returns_log_bind; [apply (returns_log_pure _ (fun _ l => l = [])); reflexivity|].
    intros x l5 ->. apply returns_log_pure. split; [apply fails_last_nil | discriminate].
Qed.

Lemma ping_once_fault_log fuel cfg :
  returns_log (ping_once trig echo fuel cfg) (hal_failure_outcome 0).
Proof.
  unfold ping_once.
  eapply returns_log_bind; [apply hal_set_direction_log|]. intros r1 l1 ->.
  destruct (negb (Z.eqb r1 ESP_OK)) eqn:E1.
  { apply returns_log_pure. apply hal_failure_outcome_last; [lia | reflexivity]. }
  apply (returns_log_weaken _ (hal_failure_outcome 1));
    [|intros b l2 Hb; apply hal_failure_outcome_cons_ok;
        [unfold call_failed; simpl; rewrite E1; reflexivity | exact Hb]].
  eapply returns_log_bind; [apply hal_set_level_log|]. intros r2 l2 ->.
  destruct (negb (Z.eqb r2 ESP_OK)) eqn:E2.
  { apply returns_log_pure. apply hal_failure_outcome_last; [lia | reflexivity]. }
  apply (returns_log_weaken _ (hal_failure_outcome 2));
    [|intros b l3 Hb; apply hal_failure_outcome_cons_ok;
        [unfold call_failed; simpl; rewrite E2; reflexivity | exact Hb]].
  eapply returns_log_bind; [apply hal_set_direction_log|]. intros r3 l3 ->.
  destruct (negb (Z.eqb r3 ESP_OK)) eqn:E3.
  { apply returns_log_pure. apply hal_failure_outcome_last; [lia | reflexivity]. }
  apply (returns_log_weaken _ (hal_failure_outcome 3));
    [|intros b l4 Hb; apply hal_failure_outcome_cons_ok;
        [unfold call_failed; simpl; rewrite E3; reflexivity | exact Hb]].
  eapply returns_log_bind; [apply is_echo_stuck_log|]. intros stuck l4 (r4 & lv & -> & Hs).
  destruct stuck.
  { apply returns_log_pure. apply hal_failure_outcome_ok.
    unfold ok_log, call_failed. simpl. rewrite (Hs eq_refl). reflexivity. }
  eapply returns_log_weaken; [apply ping_once_tail_log|].
  intros b l5 [Ht Hne]. apply hal_failure_outcome_stuck_check; assumption.
Qed.
End PingOnceLogs.

Lemma settle_log_app cfg r l1 l2 :
  no_delay_ms l1 = true -> settle_log cfg r l2 -> settle_log cfg r (l1 ++ l2).
Proof.
  intros H1 [A B]. split.
  - intros Hr Hi. destruct (A Hr Hi) as (l0 & x & ->). exists (l1 ++ l0), x.
    rewrite app_assoc. reflexivity.
  - intros Hr. unfold no_delay_ms in *. rewrite forallb_app, H1. simpl. auto.
Qed.

Lemma settle_log_no_delay cfg r l :
  r.(result) <> OK -> no_delay_ms l = true -> settle_log cfg r l.
Proof. intros Hr Hl. split; [intros E; contradiction | auto]. Qed.

Ltac settle_step lemma cfg :=
  eapply returns_log_bind; [apply lemma|];
  let ret := fresh "ret" in let lr := fresh "l" in
  intros ret lr ->;
  let E := fresh "E" in
  destruct (negb (Z.eqb ret ESP_OK)) eqn:E;
  [ apply returns_log_pure; apply settle_log_no_delay; [discriminate | reflexivity]
  | apply (returns_log_weaken _ (settle_log cfg));
    [| let b := fresh "b" in let l' := fresh "l" in let Hb := fresh "Hb" in
       intros b l' Hb; apply (settle_log_app _ _ [_] l'); [reflexivity | exact Hb]] ].

Section SettleLogs.
Context {W : Type} `{IGpioHAL W} `{ITimerHAL W}.
Variables trig echo : gpio_num_t.

Lemma ping_once_settle_log fuel cfg :
  returns_log (ping_once trig echo fuel cfg) (settle_log cfg).
Proof.
  unfold ping_once.
  settle_step hal_set_direction_log cfg.
  settle_step hal_set_level_log cfg.
  settle_step hal_set_direction_log cfg.
  eapply returns_log_bind; [apply is_echo_stuck_log|]. intros stuck l4 (r4 & lv & -> & _).
  destruct stuck.
  { apply returns_log_pure. apply settle_log_no_delay; [discriminate | reflexivity]. }
  apply (returns_log_weaken _ (settle_log cfg));
    [|intros b l5 Hb; apply (settle_log_app _ _ [_] l5); [reflexivity | exact Hb]].
  eapply returns_log_bind; [apply trigger_log|]. intros rt lt [_ [_ HD]].
  destruct (negb (Z.eqb rt ESP_OK)).
  { apply returns_log_pure. apply settle_log_no_delay; [discriminate|].
    rewrite app_nil_r. exact HD. }
  apply (returns_log_weaken _ (settle_log cfg)); [|intros b l5 Hb; apply settle_log_app; assumption].
  eapply returns_log_bind; [apply wait_rising_edge_log|]. intros ret2 lw [_ HD2].
  destruct (Z.eqb ret2 ESP_ERR_TIMEOUT).
  { apply returns_log_pure. apply settle_log_no_delay; [discriminate|].
    rewrite app_nil_r. exact HD2. }
  destruct (negb (Z.eqb ret2 ESP_OK)).
  { apply returns_log_pure. apply settle_log_no_delay; [discriminate|].
    rewrite app_nil_r. exact HD2. }
  apply (returns_log_weaken _ (settle_log cfg)); [|intros b l5 Hb; apply settle_log_app; assumption].
  eapply returns_log_bind; [apply measure_pulse_log|]. intros rd lm [_ HD3]. cbv zeta.
  destruct (Z.eqb (fst rd) ESP_ERR_TIMEOUT).
  { apply returns_log_pure. apply settle_log_no_delay; [discriminate|].
    rewrite app_nil_r. exact HD3. }
  destruct (negb (Z.eqb (fst rd) ESP_OK)).
  { apply returns_log_pure. apply settle_log_no_delay; [discriminate|].
    rewrite app_nil_r. exact HD3. }
  apply (returns_log_weaken _ (settle_log cfg)); [|intros b l5 Hb; apply settle_log_app; assumption].
  destruct (_ || _).
  { apply returns_log_pure. apply settle_log_no_delay; [discriminate | reflexivity]. }
  destruct (0 <? ping_interval_ms cfg)%Z eqn:Ei.
  - eapply returns_log_bind; [apply hal_delay_ms_log|]. intros x l5 ->.
    apply returns_log_pure. split.
    + intros _ _. exists [], x. reflexivity.
    + intros Hr. contradiction Hr. reflexivity.
  - eapply returns_log_bind; [apply (returns_log_pure _ (fun _ l => l = [])); reflexivity|].
    intros x l5 ->. apply returns_log_pure. split.
    + intros _ Hi. apply Z.ltb_lt in Hi. congruence.
    + intros Hr. contradiction Hr. reflexivity.
Qed.
End SettleLogs.

(** C4 (as the code has it): in a cycle of [ping_once], whatever the HAL
    does, a failed call at any position but 3 is the last call of the cycle
    and fixes its result: [HW_FAULT] with distance 0 for a failed pin write,
    direction change or [delay_us], and for a failed [get_level] in the
    rising-edge or pulse loop, unless its code is [ESP_ERR_TIMEOUT], which
    gives [TIMEOUT]; a failed settling [delay_ms] is ignored and the result
    stays [OK]. A failed read at position 3, the stuck check, does not end
    the cycle and does not give [ECHO_STUCK]. *)
Theorem ping_once_hal_failures {W} `{IGpioHAL W} `{ITimerHAL W}
    (trig echo : gpio_num_t) (fuel : nat) (cfg : UsConfig) (w : W) r w' l :
  ping_once trig echo fuel cfg w = Some (r, w', l) ->
  forall k c, nth_error l k = Some c -> call_failed c = true ->
    (k = 3 /\ r.(result) <> ECHO_STUCK /\ S k < length l) \/
    (k <> 3 /\ S k = length l /\ fault_outcome c r).
Proof. intros E. exact (ping_once_fault_log trig echo fuel cfg w r w' l E). Qed.

Lemma ping_once_hal_failures_witness :
  (3 = 3 /\ (mkReading OK (S754_finite false 10789847 (-19))).(result) <> ECHO_STUCK /\
   4 < length
         [CallSetDirection 5 GPIO_MODE_OUTPUT 0; CallSetLevel 5 false 0;
          CallSetDirection 5 GPIO_MODE_INPUT 0; CallGetLevel 5 (-1) false;
          CallSetLevel 4 true 0; CallDelayUs 20 0; CallSetLevel 4 false 0;
          CallGetNowUs 0; CallGetLevel 5 0 true; CallGetNowUs 600; CallGetNowUs 1200;
          CallGetLevel 5 0 false; CallGetNowUs 1800; CallGetNowUs 2400;
          CallDelayMs 70 0]%Z) \/
  (3 <> 3 /\
   4 = length
         [CallSetDirection 5 GPIO_MODE_OUTPUT 0; CallSetLevel 5 false 0;
          CallSetDirection 5 GPIO_MODE_INPUT 0; CallGetLevel 5 (-1) false;
          CallSetLevel 4 true 0; CallDelayUs 20 0; CallSetLevel 4 false 0;
          CallGetNowUs 0; CallGetLevel 5 0 true; CallGetNowUs 600; CallGetNowUs 1200;
          CallGetLevel 5 0 false; CallGetNowUs 1800; CallGetNowUs 2400;
          CallDelayMs 70 0]%Z /\
   fault_outcome (CallGetLevel ECHO ESP_FAIL false)
     (mkReading OK (S754_finite false 10789847 (-19)))).
Proof.
  apply (ping_once_hal_failures TRIG ECHO 100 default_cfg bench_stuck_read_fails
           (mkReading OK (S754_finite false 10789847 (-19))) (mkBench 3000 600 [])
           [CallSetDirection 5 GPIO_MODE_OUTPUT 0; CallSetLevel 5 false 0;
            CallSetDirection 5 GPIO_MODE_INPUT 0; CallGetLevel 5 (-1) false;
            CallSetLevel 4 true 0; CallDelayUs 20 0; CallSetLevel 4 false 0;
            CallGetNowUs 0; CallGetLevel 5 0 true; CallGetNowUs 600; CallGetNowUs 1200;
            CallGetLevel 5 0 false; CallGetNowUs 1800; CallGetNowUs 2400;
            CallDelayMs 70 0]%Z);
    vm_compute; reflexivity.
Defined.

(** C4 fails on the code: when the read of the stuck check fails, the
    cycle goes on and returns [OK] with a distance, not [HW_FAULT]. *)
Lemma ping_once_stuck_read_failure_not_hw_fault :
  match run_bench bench_stuck_read_fails with
  | Some (r, _, l) =>
      nth_error l 3 = Some (CallGetLevel ECHO ESP_FAIL false) /\
      call_failed (CallGetLevel ECHO ESP_FAIL false) = true /\
      r.(result) = OK
  | None => False
  end.
Proof. vm_compute. split; [reflexivity | split; reflexivity]. Qed.

(** C5: in a cycle of [ping_once], whatever the HAL does, an [OK] cycle
    with a positive [ping_interval_ms] ends with the call
    [delay_ms(ping_interval_ms)]; a cycle with any other result, [TIMEOUT]
    and [OUT_OF_RANGE] included, calls no [delay_ms]. *)
Theorem ping_once_settling_delay {W} `{IGpioHAL W} `{ITimerHAL W}
    (trig echo : gpio_num_t) (fuel : nat) (cfg : UsConfig) (w : W) r w' l :
  ping_once trig echo fuel cfg w = Some (r, w', l) ->
  (r.(result) = OK -> (0 < cfg.(ping_interval_ms))%Z ->
   exists l0 x, l = l0 ++ [CallDelayMs cfg.(ping_interval_ms) x]) /\
  (r.(result) <> OK -> forall c, In c l -> is_delay_ms c = false).
Proof.
  intros E. destruct (ping_once_settle_log trig echo fuel cfg w r w' l E) as [A B].
  split; [exact A|]. intros Hr c Hc.
  specialize (B Hr). unfold no_delay_ms in B. rewrite forallb_forall in B.
  apply negb_true_iff, B, Hc.
Qed.

Lemma ping_once_settling_delay_witness :
  ((mkReading OUT_OF_RANGE F32.zero).(result) = OK -> (0 < 70)%Z ->
   exists l0 x,
     [CallSetDirection 5 GPIO_MODE_OUTPUT 0; CallSetLevel 5 false 0;
      CallSetDirection 5 GPIO_MODE_INPUT 0; CallGetLevel 5 0 false;
      CallSetLevel 4 true 0; CallDelayUs 20 0; CallSetLevel 4 false 0;
      CallGetNowUs 0; CallGetLevel 5 0 true; CallGetNowUs 10; CallGetNowUs 20;
      CallGetLevel 5 0 false; CallGetNowUs 30; CallGetNowUs 40]%Z
     = l0 ++ [CallDelayMs 70 x]) /\
  ((mkReading OUT_OF_RANGE F32.zero).(result) <> OK -> forall c,
     In c [CallSetDirection 5 GPIO_MODE_OUTPUT 0; CallSetLevel 5 false 0;
           CallSetDirection 5 GPIO_MODE_INPUT 0; CallGetLevel 5 0 false;
           CallSetLevel 4 true 0; CallDelayUs 20 0; CallSetLevel 4 false 0;
           CallGetNowUs 0; CallGetLevel 5 0 true; CallGetNowUs 10; CallGetNowUs 20;
           CallGetLevel 5 0 false; CallGetNowUs 30; CallGetNowUs 40]%Z ->
     is_delay_ms c = false).
Proof.
  apply (ping_once_settling_delay TRIG ECHO 100 default_cfg bench_out_of_range
           (mkReading OUT_OF_RANGE F32.zero) (mkBench 50 10 [])
           [CallSetDirection 5 GPIO_MODE_OUTPUT 0; CallSetLevel 5 false 0;
            CallSetDirection 5 GPIO_MODE_INPUT 0; CallGetLevel 5 0 false;
            CallSetLevel 4 true 0; CallDelayUs 20 0; CallSetLevel 4 false 0;
            CallGetNowUs 0; CallGetLevel 5 0 true; CallGetNowUs 10; CallGetNowUs 20;
            CallGetLevel 5 0 false; CallGetNowUs 30; CallGetNowUs 40]%Z).
  vm_compute. reflexivity.
Defined.

(** C5 fails on the code: with [ping_interval_ms = 70], a 20 us echo
    (0.3 cm, below [min_distance_cm]) ends the cycle with [OUT_OF_RANGE]
    and no call of [delay_ms]. *)
Lemma ping_once_out_of_range_skips_delay :
  default_cfg.(ping_interval_ms) = 70%Z /\
  match run_bench bench_out_of_range with
  | Some (r, _, l) => r.(result) = OUT_OF_RANGE /\ no_delay_ms l = true
  | None => False
  end.
Proof. vm_compute. split; [reflexivity | split; reflexivity]. Qed.

(** * Properties of the driver, the processor and the orchestrator *)

Lemma fail_stop_fails r l :
  l <> [] -> setup_ret (last l (CallResetPin 0%Z ESP_OK)) = Some r -> (r =? ESP_OK)%Z = false ->
  forallb (fun c => negb (setup_failed c)) (removelast l) = true -> fail_stop r l.
Proof.
  intros Hne Hc Hr Hok. rewrite (app_removelast_last (CallResetPin 0%Z ESP_OK) Hne).
  set (c := last l _) in *. set (l0 := removelast l) in *.
  assert (Hf : negb (setup_failed c) = false) by (unfold setup_failed; rewrite Hc, Hr; reflexivity).
  split.
  - rewrite forallb_app, Hok. simpl. rewrite Hf. split; [|discriminate].
    intros ->. rewrite Z.eqb_refl in Hr. discriminate.
  - intros _. exists l0, c. auto.
Qed.

Lemma fail_stop_ok l :
  forallb (fun c => negb (setup_failed c)) l = true -> fail_stop ESP_OK l.
Proof. intros Hok. split; [split; auto | intros []; reflexivity]. Qed.

Ltac setup_run E :=
  repeat (match type of E with
  | context [reset_pin ?p ?w] => let r := fresh "r" in let w1 := fresh "w" in
      destruct (reset_pin p w) as [r w1] eqn:?
  | context [config ?c ?w] => let r := fresh "r" in let w1 := fresh "w" in
      destruct (config c w) as [r w1] eqn:?
  | context [set_level ?p ?lv ?w] => let r := fresh "r" in let w1 := fresh "w" in
      destruct (set_level p lv w) as [r w1] eqn:?
  | context [set_direction ?p ?m ?w] => let r := fresh "r" in let w1 := fresh "w" in
      destruct (set_direction p m w) as [r w1] eqn:?
  | context [delay_ms ?x ?w] => let r := fresh "r" in let w1 := fresh "w" in
      destruct (delay_ms x w) as [r w1] eqn:?
  | context [Z.eqb ?r ESP_OK] => let e := fresh "e" in destruct (Z.eqb r ESP_OK) eqn:e
  | context [Z.ltb 0 ?x] => let e := fresh "e" in destruct (Z.ltb 0 x) eqn:e
  end; simpl in E); inversion E; subst; clear E.

Ltac setup_solve :=
  repeat match goal with H : (?r =? ESP_OK)%Z = true |- _ => apply Z.eqb_eq in H; subst r end;
  split;
  [ first [ apply fail_stop_ok; reflexivity
          | apply fail_stop_fails; [discriminate | reflexivity | assumption | reflexivity] ]
  | first [ reflexivity
          | intros Hk; subst; rewrite Z.eqb_refl in *; discriminate ] ].

Section SetupFacts.
Context {W : Type} `{IGpioHAL W} `{IGpioPinSetup W} `{ITimerHAL W}.

(** X1: [UsDriver::init] stops at the first HAL call that fails and returns
    that call's error code; it returns [ESP_OK] exactly when every call it
    made succeeded, and then its calls are, in order: reset, configure as
    output and drive low TRIG; reset and configure as input ECHO; switch
    ECHO to output and drive it low; and the warmup [delay_ms] when
    [warmup_time_ms > 0]. *)
Theorem init_fail_stop trig echo warmup :
  returns_log (init trig echo warmup)
    (fun ret l => fail_stop ret l /\ (ret = ESP_OK -> l = init_ok_log trig echo warmup)).
Proof.
  intros w ret w' l E.
  unfold init, bind, pure, hal_reset_pin, hal_config, lift_hal, hal_set_level,
    hal_set_direction, hal_delay_ms in E.
  setup_run E; unfold init_ok_log;
  try match goal with e : (0 <? _)%Z = _ |- _ => rewrite e end; simpl;
  setup_solve.
Qed.

(** X2: [UsDriver::deinit] stops at the first HAL call that fails and
    returns its error code; it returns [ESP_OK] exactly when all four calls
    (TRIG low, reset TRIG, ECHO low, reset ECHO) succeeded, in that order. *)
Theorem deinit_fail_stop trig echo :
  returns_log (deinit trig echo)
    (fun ret l => fail_stop ret l /\ (ret = ESP_OK -> l = deinit_ok_log trig echo)).
Proof.
  intros w ret w' l E.
  unfold deinit, bind, pure, hal_reset_pin, lift_hal, hal_set_level in E.
  setup_run E; unfold deinit_ok_log; simpl; setup_solve.
Qed.
End SetupFacts.

Lemma returns_log_all_bind {E W A B} (p : E -> bool) (m : M E W A) (k : A -> M E W B) :
  returns_log m (fun _ l => forallb p l = true) ->
  (forall a, returns_log (k a) (fun _ l => forallb p l = true)) ->
  returns_log (bind m k) (fun _ l => forallb p l = true).
Proof.
  intros Hm Hk. eapply returns_log_bind; [exact Hm|]. intros a l1 H1.
  eapply returns_log_weaken; [apply Hk|]. intros b l2 H2. rewrite forallb_app, H1, H2. reflexivity.
Qed.

Lemma returns_log_all_pure {E W A} (p : E -> bool) (a : A) :
  returns_log (W := W) (pure a) (fun _ l => forallb p l = true).
Proof. apply returns_log_pure. reflexivity. Qed.


Lemma returns_log_of_returns {E W A} (m : M E W A) (P : A -> Prop) (Q : A -> list E -> Prop) :
  returns m P -> (forall a l, P a -> Q a l) -> returns_log m Q.
Proof. intros Hm HQ w a w1 l Eb. apply HQ. exact (Hm w a w1 l Eb). Qed.

Section LoopCalls.
Context {W : Type} `{IGpioHAL W} `{ITimerHAL W}.
Variables trig echo : gpio_num_t.

Lemma wait_rising_loop_calls fuel : forall start t,
  returns_log (wait_rising_loop echo fuel start t) (fun _ l => forallb (loop_call echo) l = true).
Proof.
  induction fuel as [|fuel IH]; intros start t; [apply returns_log_out_of_fuel|].
  simpl. apply returns_log_all_bind.
  { eapply returns_log_weaken; [apply hal_get_level_log|]. intros rl l ->. simpl. now rewrite Z.eqb_refl. }
  intros [r lv]. cbn [fst snd]. destruct (negb _); [apply returns_log_all_pure|].
  apply returns_log_all_bind.
  { eapply returns_log_weaken; [apply hal_get_now_us_log|]. intros n l ->. reflexivity. }
  intros now. destruct (_ <? _)%Z; [apply returns_log_all_pure|].
  destruct lv; [apply returns_log_all_pure | apply IH].
Qed.

Lemma measure_loop_calls fuel : forall start t,
  returns_log (measure_loop echo fuel start t) (fun _ l => forallb (loop_call echo) l = true).
Proof.
  induction fuel as [|fuel IH]; intros start t; [apply returns_log_out_of_fuel|].
  simpl. apply returns_log_all_bind.
  { eapply returns_log_weaken; [apply hal_get_level_log|]. intros rl l ->. simpl. now rewrite Z.eqb_refl. }
  intros [r lv]. cbn [fst snd]. destruct (negb _); [apply returns_log_all_pure|].
  apply returns_log_all_bind.
  { eapply returns_log_weaken; [apply hal_get_now_us_log|]. intros n l ->. reflexivity. }
  intros now. destruct (_ <? _)%Z; [apply returns_log_all_pure|].
  destruct lv; [apply IH | apply returns_log_all_pure].
Qed.

Lemma wait_rising_edge_calls fuel t :
  returns_log (wait_rising_edge echo fuel t) (fun _ l => forallb (loop_call echo) l = true).
Proof.
  unfold wait_rising_edge. apply returns_log_all_bind; [|intros; apply wait_rising_loop_calls].
  eapply returns_log_weaken; [apply hal_get_now_us_log|]. intros n l ->. reflexivity.
Qed.

Lemma measure_pulse_calls fuel t :
  returns_log (measure_pulse echo fuel t) (fun _ l => forallb (loop_call echo) l = true).
Proof.
  unfold measure_pulse. apply returns_log_all_bind.
  { eapply returns_log_weaken; [apply hal_get_now_us_log|]. intros n l ->. reflexivity. }
  intros start. apply returns_log_all_bind; [apply measure_loop_calls|].
  intros ret. destruct (negb _); [apply returns_log_all_pure|].
  apply returns_log_all_bind; [|intros; apply returns_log_all_pure].
  eapply returns_log_weaken; [apply hal_get_now_us_log|]. intros n l ->. reflexivity.
Qed.


Lemma loop_call_pin_discipline l :
  forallb (loop_call echo) l = true -> forallb (pin_discipline trig echo) l = true.
Proof.
  induction l as [|c l IH]; [reflexivity|]. simpl. intros Hc.
  apply andb_true_iff in Hc as [Hc Hl]. rewrite (IH Hl), andb_true_r.
  destruct c; simpl in *; try discriminate; auto.
Qed.

Lemma trigger_exact d :
  returns_log (trigger trig d)
    (fun ret l => (l = [CallSetLevel trig true ret] /\ ret <> ESP_OK) \/
                  (l = [CallSetLevel trig true ESP_OK; CallDelayUs d ret] /\ ret <> ESP_OK) \/
                  l = [CallSetLevel trig true ESP_OK; CallDelayUs d ESP_OK;
                       CallSetLevel trig false ret]).
Proof.
  unfold trigger. eapply returns_log_bind; [apply hal_set_level_log|]. intros r1 l1 ->.
  destruct (negb (Z.eqb r1 ESP_OK)) eqn:E1.
  { apply returns_log_pure. left. split; [reflexivity|]. intros ->. discriminate. }
  apply negb_false_iff, Z.eqb_eq in E1. subst r1.
  eapply returns_log_bind; [apply hal_delay_us_log|]. intros r2 l2 ->.
  destruct (negb (Z.eqb r2 ESP_OK)) eqn:E2.
  { apply returns_log_pure. right; left. split; [reflexivity|]. intros ->. discriminate. }
  apply negb_false_iff, Z.eqb_eq in E2. subst r2.
  eapply returns_log_weaken; [apply hal_set_level_log|]. intros r3 l3 ->. right; right. reflexivity.
Qed.
End LoopCalls.

Section PingOnceFacts.
Context {W : Type} `{IGpioHAL W} `{ITimerHAL W}.
Variables trig echo : gpio_num_t.

Lemma is_echo_stuck_exact :
  returns_log (is_echo_stuck echo)
    (fun stuck l => exists r lv, l = [CallGetLevel echo r lv] /\
                                 (stuck = true -> r = ESP_OK /\ lv = true)).
Proof.
  unfold is_echo_stuck. eapply returns_log_bind; [apply hal_get_level_log|].
  intros [r lv] l1 ->. cbn [fst snd].
  destruct (negb (Z.eqb r ESP_OK)) eqn:Er; apply returns_log_pure; exists r, lv;
    rewrite app_nil_r; split; auto.
  - intros Hf. discriminate Hf.
  - intros ->. apply negb_false_iff, Z.eqb_eq in Er. auto.
Qed.

Ltac step_ok lemma :=
  eapply returns_log_bind; [apply lemma|];
  let r := fresh "r" in let l := fresh "l" in let E := fresh "E" in
  intros r l ->; destruct (negb (Z.eqb r ESP_OK)) eqn:E;
  [ apply returns_log_pure
  | apply negb_false_iff, Z.eqb_eq in E; subst r ].

(** X3: a [ping_once] that reports [ECHO_STUCK] made exactly four HAL calls,
    all successful: ECHO to output, ECHO low, ECHO to input, and one read
    of ECHO that returned high. No trigger pulse is sent. *)
Theorem ping_once_echo_stuck_calls fuel cfg :
  returns_log (ping_once trig echo fuel cfg)
    (fun r l => r.(result) = ECHO_STUCK -> l = echo_stuck_log echo).
Proof.
  unfold ping_once.
  step_ok hal_set_direction_log; [discriminate|].
  step_ok hal_set_level_log; [discriminate|].
  step_ok hal_set_direction_log; [discriminate|].
  eapply returns_log_bind; [apply is_echo_stuck_exact|].
  intros stuck l4 (r4 & lv & -> & Hs). destruct stuck.
  { destruct (Hs eq_refl) as [-> ->]. apply returns_log_pure. reflexivity. }
  apply (returns_log_of_returns _ (fun r => r.(result) <> ECHO_STUCK)).
  - returns_solve; discriminate.
  - intros a l Ha Hb. contradiction.
Qed.


Ltac pin_atom :=
  first
  [ eapply returns_log_weaken; [apply hal_set_direction_log|]; intros ? ? ->; simpl;
    rewrite ?Z.eqb_refl; reflexivity
  | eapply returns_log_weaken; [apply hal_set_level_log|]; intros ? ? ->; simpl;
    rewrite ?Z.eqb_refl, ?orb_true_r; reflexivity
  | eapply returns_log_weaken; [apply is_echo_stuck_exact|]; intros ? ? (? & ? & -> & _); simpl;
    rewrite ?Z.eqb_refl; reflexivity
  | eapply returns_log_weaken; [apply trigger_exact|];
    intros ? ? [[-> _]|[[-> _]| ->]]; simpl; rewrite ?Z.eqb_refl; reflexivity
  | eapply returns_log_weaken; [apply wait_rising_edge_calls|]; intros ? ? Hl;
    apply (loop_call_pin_discipline trig echo _ Hl)
  | eapply returns_log_weaken; [apply measure_pulse_calls|]; intros ? ? Hl;
    apply (loop_call_pin_discipline trig echo _ Hl)
  | eapply returns_log_weaken; [apply hal_delay_ms_log|]; intros ? ? ->; reflexivity
  | apply returns_log_all_pure ].

(** X5: [ping_once] changes the direction of ECHO only, reads ECHO only,
    writes TRIG (either level) and drives ECHO only low; it touches no
    other pin. *)
Theorem ping_once_pin_discipline fuel cfg :
  returns_log (ping_once trig echo fuel cfg)
    (fun _ l => forallb (pin_discipline trig echo) l = true).
Proof.
  unfold ping_once.
  repeat match goal with
  | |- returns_log (bind (if ?b then _ else _) _) _ => destruct b
  | |- returns_log (bind _ _) _ => apply returns_log_all_bind; [pin_atom | intro]
  | |- returns_log (pure _) _ => apply returns_log_all_pure
  | |- returns_log (if ?b then _ else _) _ => destruct b
  | |- returns_log (let _ := _ in _) _ => cbv zeta
  end.
Qed.

Lemma loop_call_not_delay_us l : forallb (loop_call echo) l = true -> forallb not_delay_us l = true.
Proof.
  induction l as [|c l IH]; [reflexivity|]. simpl. intros Hc.
  apply andb_true_iff in Hc as [Hc Hl]. rewrite (IH Hl), andb_true_r.
  destruct c; simpl in *; try discriminate; auto.
Qed.

Lemma delay_us_failure_outcome_cons r c l :
  not_delay_us c = true -> delay_us_failure_outcome trig r l ->
  delay_us_failure_outcome trig r (c :: l).
Proof.
  intros Hc Hl d rr [Heq|Hin] Hrr; [subst c; discriminate Hc|].
  destruct (Hl d rr Hin Hrr) as [Hr [l0 ->]]. split; [exact Hr|]. exists (c :: l0). reflexivity.
Qed.

Lemma delay_us_failure_outcome_none r l :
  forallb not_delay_us l = true -> delay_us_failure_outcome trig r l.
Proof.
  intros Hl d rr Hin. rewrite forallb_forall in Hl. specialize (Hl _ Hin). discriminate.
Qed.

(** X6: if the [delay_us] of the trigger pulse fails, [ping_once] returns
    [HW_FAULT] with distance 0 right away: that delay is its last call, and
    TRIG is left high (no call drives it low after the raise). *)
Theorem ping_once_trigger_delay_failure fuel cfg :
  returns_log (ping_once trig echo fuel cfg) (delay_us_failure_outcome trig).
Proof.
  unfold ping_once.
  do 3 (eapply returns_log_bind; [first [apply hal_set_direction_log | apply hal_set_level_log]|];
        let r := fresh "r" in let l := fresh "l" in
        intros r l ->; destruct (negb (Z.eqb r ESP_OK));
        [apply returns_log_pure; apply delay_us_failure_outcome_none; reflexivity
        |eapply returns_log_weaken; [|intros ? ? Hq; apply delay_us_failure_outcome_cons;
                                        [reflexivity | exact Hq]]]).
  eapply returns_log_bind; [apply is_echo_stuck_exact|].
  intros stuck l4 (r4 & lv & -> & _). destruct stuck.
  { apply returns_log_pure. apply delay_us_failure_outcome_none. reflexivity. }
  eapply returns_log_weaken; [|intros ? ? Hq; apply delay_us_failure_outcome_cons;
                                 [reflexivity | exact Hq]].
  eapply returns_log_bind; [apply trigger_exact|].
  intros ret lt [[-> Hne]|[[-> Hne]| ->]].
  - apply Z.eqb_neq in Hne. rewrite Hne.
    apply returns_log_pure. apply delay_us_failure_outcome_none. reflexivity.
  - apply Z.eqb_neq in Hne. rewrite Hne. apply returns_log_pure. rewrite app_nil_r.
    intros d rr Hin Hrr. simpl in Hin. destruct Hin as [Hin|[Hin|[]]]; [discriminate|].
    inversion Hin; subst. split; [reflexivity|]. exists []. reflexivity.
  - destruct (negb (Z.eqb ret ESP_OK)).
    { apply returns_log_pure. intros d rr Hin Hrr. rewrite app_nil_r in Hin.
      simpl in Hin. destruct Hin as [Hin|[Hin|[Hin|[]]]]; try discriminate.
      inversion Hin; subst. contradiction. }
    apply (returns_log_weaken _ (fun _ l => forallb not_delay_us l = true)).
    2:{ intros b l2 Hl2 d rr Hin Hrr. apply in_app_or in Hin as [Hin|Hin].
        - simpl in Hin. destruct Hin as [Hin|[Hin|[Hin|[]]]]; try discriminate.
          inversion Hin; subst. contradiction.
        - rewrite forallb_forall in Hl2. specialize (Hl2 _ Hin). discriminate. }
    repeat match goal with
    | |- returns_log (bind (if ?b then _ else _) _) _ => destruct b
    | |- returns_log (bind _ _) _ => apply returns_log_all_bind; [
          first [ eapply returns_log_weaken; [apply wait_rising_edge_calls|]; intros ? ? Hl;
                  apply (loop_call_not_delay_us _ Hl)
                | eapply returns_log_weaken; [apply measure_pulse_calls|]; intros ? ? Hl;
                  apply (loop_call_not_delay_us _ Hl)
                | eapply returns_log_weaken; [apply hal_delay_ms_log|]; intros ? ? ->; reflexivity
                | apply returns_log_all_pure ] | intro]
    | |- returns_log (pure _) _ => apply returns_log_all_pure
    | |- returns_log (if ?b then _ else _) _ => destruct b
    | |- returns_log (let _ := _ in _) _ => cbv zeta
    end.
Qed.
End PingOnceFacts.

Section Faults.
Context {W : Type} `{IGpioHAL W} `{ITimerHAL W}.
Variables trig echo : gpio_num_t.

Lemma failed_in_app_r (l1 l2 : list hal_call) :
  (exists c, In c l2 /\ call_failed c = true) -> exists c, In c (l1 ++ l2) /\ call_failed c = true.
Proof. intros (c & Hin & Hf). exists c. split; [apply in_or_app; auto | exact Hf]. Qed.

Lemma failed_in_app_l (l1 l2 : list hal_call) :
  (exists c, In c l1 /\ call_failed c = true) -> exists c, In c (l1 ++ l2) /\ call_failed c = true.
Proof. intros (c & Hin & Hf). exists c. split; [apply in_or_app; auto | exact Hf]. Qed.

Ltac lift_failed A :=
  let c := fresh "c" in let Hc := fresh "Hc" in let Hf := fresh "Hf" in
  destruct A as (c & Hc & Hf); exists c; split;
  [rewrite ?in_app_iff; simpl; rewrite ?in_app_iff; tauto | exact Hf].

Lemma wait_rising_loop_ret fuel : forall start t,
  returns_log (wait_rising_loop echo fuel start t)
    (fun ret l => ret = ESP_OK \/ ret = ESP_ERR_TIMEOUT \/
                  exists c, In c l /\ call_failed c = true).
Proof.
  induction fuel as [|fuel IH]; intros start t; [apply returns_log_out_of_fuel|].
  simpl. eapply returns_log_bind; [apply hal_get_level_log|].
  intros [r lv] l1 ->. cbn [fst snd].
  destruct (negb (Z.eqb r ESP_OK)) eqn:Er.
  { apply returns_log_pure. right; right. exists (CallGetLevel echo r lv).
    split; [left; reflexivity|]. unfold call_failed. simpl. exact Er. }
  eapply returns_log_bind; [apply hal_get_now_us_log|]. intros now l2 ->.
  destruct (t <? u64_sub now start)%Z; [apply returns_log_pure; auto|].
  destruct lv; [apply returns_log_pure; auto|].
  eapply returns_log_weaken; [apply IH|]. intros ret l3 [A|[A|A]]; auto.
  right; right. lift_failed A.
Qed.

Lemma measure_loop_ret fuel : forall start t,
  returns_log (measure_loop echo fuel start t)
    (fun ret l => ret = ESP_OK \/ ret = ESP_ERR_TIMEOUT \/
                  exists c, In c l /\ call_failed c = true).
Proof.
  induction fuel as [|fuel IH]; intros start t; [apply returns_log_out_of_fuel|].
  simpl. eapply returns_log_bind; [apply hal_get_level_log|].
  intros [r lv] l1 ->. cbn [fst snd].
  destruct (negb (Z.eqb r ESP_OK)) eqn:Er.
  { apply returns_log_pure. right; right. exists (CallGetLevel echo r lv).
    split; [left; reflexivity|]. unfold call_failed. simpl. exact Er. }
  eapply returns_log_bind; [apply hal_get_now_us_log|]. intros now l2 ->.
  destruct (t <? u64_sub now start)%Z; [apply returns_log_pure; auto|].
  destruct lv; [|apply returns_log_pure; auto].
  eapply returns_log_weaken; [apply IH|]. intros ret l3 [A|[A|A]]; auto.
  right; right. lift_failed A.
Qed.

Lemma wait_rising_edge_ret fuel t :
  returns_log (wait_rising_edge echo fuel t)
    (fun ret l => ret = ESP_OK \/ ret = ESP_ERR_TIMEOUT \/
                  exists c, In c l /\ call_failed c = true).
Proof.
  unfold wait_rising_edge. eapply returns_log_bind; [apply hal_get_now_us_log|].
  intros start l1 ->. eapply returns_log_weaken; [apply wait_rising_loop_ret|].
  intros ret l2 [A|[A|A]]; auto. right; right. lift_failed A.
Qed.

Lemma measure_pulse_ret fuel t :
  returns_log (measure_pulse echo fuel t)
    (fun rd l => fst rd = ESP_OK \/ fst rd = ESP_ERR_TIMEOUT \/
                 exists c, In c l /\ call_failed c = true).
Proof.
  unfold measure_pulse. eapply returns_log_bind; [apply hal_get_now_us_log|].
  intros start l1 ->. eapply returns_log_bind; [apply measure_loop_ret|].
  intros ret l2 HA. destruct (negb (Z.eqb ret ESP_OK)) eqn:Er.
  - apply returns_log_pure. simpl. destruct HA as [A|[A|A]]; auto.
    right; right. lift_failed A.
  - eapply returns_log_bind; [apply hal_get_now_us_log|]. intros now l3 ->.
    apply returns_log_pure. simpl. auto.
Qed.

Ltac fault_prefix :=
  apply (returns_log_weaken _ (fun r l => r.(result) = HW_FAULT ->
                                   exists c, In c l /\ call_failed c = true));
  [|intros ? ? HQ Hr; specialize (HQ Hr); lift_failed HQ].

(** X7: [ping_once] reports [HW_FAULT] only when one of its HAL calls
    returned an error code. *)
Theorem ping_once_hw_fault_has_failed_call fuel cfg :
  returns_log (ping_once trig echo fuel cfg)
    (fun r l => r.(result) = HW_FAULT -> exists c, In c l /\ call_failed c = true).
Proof.
  unfold ping_once.
  do 3 (eapply returns_log_bind; [first [apply hal_set_direction_log | apply hal_set_level_log]|];
        let r := fresh "r" in let l := fresh "l" in let E := fresh "E" in
        intros r l ->; destruct (negb (Z.eqb r ESP_OK)) eqn:E;
        [apply returns_log_pure; intros _; rewrite app_nil_r; eexists; split;
           [left; reflexivity | unfold call_failed; simpl; exact E]
        | fault_prefix]).
  eapply returns_log_bind; [apply is_echo_stuck_exact|].
  intros stuck l4 _. destruct stuck; [apply returns_log_pure; discriminate|].
  fault_prefix.
  eapply returns_log_bind; [apply trigger_exact|].
  intros ret lt Ht. destruct (negb (Z.eqb ret ESP_OK)) eqn:Etr.
  { apply returns_log_pure. intros _. rewrite app_nil_r.
    destruct Ht as [[-> _]|[[-> _]| ->]]; eexists; split;
      [| |right; left; reflexivity| |right; right; left; reflexivity|];
      try (left; reflexivity); unfold call_failed; simpl; exact Etr. }
  fault_prefix.
  eapply returns_log_bind; [apply wait_rising_edge_ret|]. intros ret2 lw Hw.
  destruct (Z.eqb ret2 ESP_ERR_TIMEOUT) eqn:Et; [apply returns_log_pure; discriminate|].
  destruct (negb (Z.eqb ret2 ESP_OK)) eqn:E2.
  { apply returns_log_pure. intros _. rewrite app_nil_r.
    destruct Hw as [A|[A|A]]; [subst; discriminate | subst; discriminate | exact A]. }
  fault_prefix.
  eapply returns_log_bind; [apply measure_pulse_ret|]. intros rd lm Hm. cbv zeta.
  destruct (Z.eqb (fst rd) ESP_ERR_TIMEOUT) eqn:Et3; [apply returns_log_pure; discriminate|].
  destruct (negb (Z.eqb (fst rd) ESP_OK)) eqn:E3.
  { apply returns_log_pure. intros _. rewrite app_nil_r.
    destruct Hm as [A|[A|A]]; [rewrite A in E3; discriminate | rewrite A in Et3; discriminate | exact A]. }
  destruct (_ || _); [apply returns_log_pure; discriminate|].
  apply (returns_log_bind _ _ (fun _ _ => True)); [intros ? ? ? ? _; exact I|].
  intros ? ? _. apply returns_log_pure. discriminate.
Qed.
End Faults.



Section BenchLoops.
Variable echo : gpio_num_t.




End BenchLoops.


(** X9: [UsProcessor::process] never returns [ECHO_STUCK] or [HW_FAULT],
    whatever the batch. *)
Theorem process_no_hw_failure pings cfg :
  is_hw_failure (process pings cfg).(result) = false.
Proof.
  unfold process. cbv zeta.
  repeat match goal with |- context [if ?b then _ else _] => destruct b end; reflexivity.
Qed.

Lemma process_success_shape pings cfg :
  length pings < 256 ->
  let r := process pings cfg in
  let v := count_valid pings in
  let t := length pings in
  let sd := get_std_dev (valid_samples pings) in
  (is_success r.(result) = true ->
     0 < t /\ 2 * t <= 5 * v /\ F32.lt cfg.(max_dev_cm) sd = false /\
     r.(cm) = match cfg.(filter) with
              | MEDIAN => reduce_median (valid_samples pings)
              | DOMINANT_CLUSTER => reduce_dominant_cluster (valid_samples pings)
              end) /\
  (r.(result) = OK ->
     7 * t <= 10 * v /\ F32.lt (F32.mul cfg.(max_dev_cm) WEAK_VARIANCE_RATIO) sd = false) /\
  (r.(result) = HIGH_VARIANCE -> 0 < t /\ 2 * t <= 5 * v /\ F32.lt cfg.(max_dev_cm) sd = true).
Proof.
  intros H256. cbv zeta. unfold process.
  destruct (Nat.eqb_spec (length pings) 0) as [E|Hne].
  { repeat split; discriminate. }
  rewrite tally_fold. cbn [samples valid_count timeouts out_of_range tally0 Nat.add app].
  destruct (ratio_gates (count_valid pings) (length pings) ltac:(lia) (count_valid_le pings))
    as [G1 G2].
  rewrite G1, G2.
  destruct (Nat.ltb_spec (5 * count_valid pings) (2 * length pings)) as [L|L].
  { cbv zeta. repeat match goal with |- context [if ?b then _ else _] => destruct b end;
    repeat split; discriminate. }
  cbv zeta.
  destruct (F32.lt (max_dev_cm cfg) (get_std_dev (valid_samples pings))) eqn:Ev.
  { repeat split; try discriminate; lia. }
  destruct (Nat.leb_spec (7 * length pings) (10 * count_valid pings)) as [L2|L2].
  - destruct (F32.lt (F32.mul (max_dev_cm cfg) WEAK_VARIANCE_RATIO) _) eqn:Ew;
      repeat split; try discriminate; try lia; auto.
  - repeat split; try discriminate; try lia; auto.
Qed.

Lemma reduce_median_in v : v <> [] -> In (reduce_median v) v.
Proof.
  intros Hv. unfold reduce_median. cbv zeta.
  apply (Permutation_in _ (std_sort_perm v)). apply nth_In.
  rewrite (Permutation_length (std_sort_perm v)).
  destruct v as [|x v]; [congruence|]. simpl length.
  apply Nat.div_lt; lia.
Qed.

(** X11: with the [MEDIAN] filter, a successful result of [process] (on a
    batch of fewer than 256 pings) reports one of the batch's valid
    distances. *)
Theorem process_median_is_sample pings cfg :
  length pings < 256 -> cfg.(filter) = MEDIAN ->
  is_success (process pings cfg).(result) = true ->
  In (process pings cfg).(cm) (valid_samples pings).
Proof.
  intros H256 Hf Hs. destruct (process_success_shape pings cfg H256) as [S _].
  destruct (S Hs) as (Ht & Hv & _ & ->). rewrite Hf. apply reduce_median_in.
  intros E. pose proof (valid_samples_length pings) as L. rewrite E in L. simpl in L. lia.
Qed.

Section Orchestrator.
Context {W : Type}.
Variable drv : UsConfig -> W -> option (Reading * W).
Variable cfg : UsConfig.

Lemma ping_loop_outcome k : forall pings,
  returns_log (ping_loop drv cfg k pings)
    (fun res l => match res with
                  | inr ps => exists qs, ps = pings ++ qs /\ l = map EvPing qs /\
                                length qs = k /\
                                forallb (fun p => negb (is_hw_failure p.(result))) qs = true
                  | inl raw => exists qs, l = map EvPing (qs ++ [raw]) /\ length qs < k /\
                                forallb (fun p => negb (is_hw_failure p.(result))) qs = true /\
                                is_hw_failure raw.(result) = true
                  end).
Proof.
  induction k as [|k IH]; intros pings.
  - apply returns_log_pure. exists []. rewrite app_nil_r. auto.
  - simpl. apply (returns_log_bind _ _ (fun a l => l = [EvPing a])).
    + intros w a w' l E. unfold call_ping_once in E.
      destruct (drv cfg w) as [[r w1]|]; [|discriminate]. inversion E; subst.
      reflexivity.
    + intros raw l1 ->. destruct (is_hw_failure raw.(result)) eqn:Eh.
      * apply returns_log_pure. exists []. simpl. repeat split; auto; lia.
      * eapply returns_log_weaken; [apply IH|]. intros [r|ps] l2 H.
        -- destruct H as (qs & -> & Hl & Hh & Hr). exists (raw :: qs). simpl.
           rewrite Eh. repeat split; auto; lia.
        -- destruct H as (qs & -> & -> & Hl & Hh). exists (raw :: qs).
           rewrite <- app_assoc. simpl. rewrite Eh. repeat split; auto.
Qed.

(** X12: [UsSensor::read_distance(n)] either runs exactly the clamped
    number of pings, none a hardware failure, and returns [process] of
    them; or it stops right after the first ping that is a hardware failure
    and returns that reading, without calling [process]. *)
Theorem read_distance_outcome n :
  returns_log (read_distance drv cfg n) (batch_outcome cfg n).
Proof.
  unfold read_distance. cbv zeta. eapply returns_log_bind; [apply ping_loop_outcome|].
  intros [raw|ps] l1 H.
  - destruct H as (qs & -> & Hl & Hh & Hr). apply returns_log_pure. rewrite app_nil_r.
    right. exists qs. auto.
  - destruct H as (qs & -> & -> & Hl & Hh). simpl.
    intros w a w' l E. unfold call_process in E. inversion E; subst.
    left. exists qs. simpl. rewrite Hl. auto.
Qed.
End Orchestrator.

Lemma f32_sub_self (x : F32.t) :
  F32.sub x x = match x with
                | S754_nan | S754_infinity _ => S754_nan
                | _ => S754_zero false
                end.
Proof.
  unfold F32.sub, SFsub. destruct x as [s|s| |s m e].
  - destruct s; reflexivity.
  - destruct s; reflexivity.
  - reflexivity.
  - rewrite Z.min_id, Z.sub_diag. reflexivity.
Qed.

(** X13: [Reading::operator==] is reflexive, except on a reading whose
    distance is infinite or NaN and whose tag is [OK] or [WEAK_SIGNAL]
    (the distance difference is then NaN). *)
Theorem reading_eqb_refl (r : Reading) :
  Reading_eqb r r = match r.(cm) with
                    | S754_nan | S754_infinity _ => negb (is_success r.(result))
                    | _ => true
                    end.
Proof.
  destruct r as [res c]. unfold Reading_eqb. cbn [result cm].
  rewrite f32_sub_self.
  destruct res, c; reflexivity.
Qed.

(** X10: on a batch of fewer than 256 pings, a successful result of
    [process] comes from a batch with at least 40% valid pings whose
    standard deviation is at most [max_dev_cm], and its distance is the
    configured filter applied to the valid distances; an [OK] result needs
    at least 70% valid pings and a standard deviation at most
    [max_dev_cm * WEAK_VARIANCE_RATIO]; [HIGH_VARIANCE] means at least 40%
    valid pings with a standard deviation above [max_dev_cm]. *)
Theorem process_quality pings cfg :
  length pings < 256 ->
  (is_success (process pings cfg).(result) = true ->
     0 < length pings /\ 2 * length pings <= 5 * count_valid pings /\
     F32.lt cfg.(max_dev_cm) (get_std_dev (valid_samples pings)) = false /\
     (process pings cfg).(cm) =
       match cfg.(filter) with
       | MEDIAN => reduce_median (valid_samples pings)
       | DOMINANT_CLUSTER => reduce_dominant_cluster (valid_samples pings)
       end) /\
  ((process pings cfg).(result) = OK ->
     7 * length pings <= 10 * count_valid pings /\
     F32.lt (F32.mul cfg.(max_dev_cm) WEAK_VARIANCE_RATIO)
            (get_std_dev (valid_samples pings)) = false) /\
  ((process pings cfg).(result) = HIGH_VARIANCE ->
     0 < length pings /\ 2 * length pings <= 5 * count_valid pings /\
     F32.lt cfg.(max_dev_cm) (get_std_dev (valid_samples pings)) = true).
Proof. intros H256. exact (process_success_shape pings cfg H256). Qed.

(** ** Witnesses of the added properties *)


Lemma process_quality_witness :
  length [ok_at 50; ok_at 52; ok_at 51] < 256 /\
  (process [ok_at 50; ok_at 52; ok_at 51] default_cfg).(result) = OK /\
  7 * length [ok_at 50; ok_at 52; ok_at 51] <= 10 * count_valid [ok_at 50; ok_at 52; ok_at 51] /\
  F32.lt (F32.mul default_cfg.(max_dev_cm) WEAK_VARIANCE_RATIO)
         (get_std_dev (valid_samples [ok_at 50; ok_at 52; ok_at 51])) = false.
Proof.
  assert (Hl : length [ok_at 50; ok_at 52; ok_at 51] < 256) by (simpl; lia).
  assert (Hok : (process [ok_at 50; ok_at 52; ok_at 51] default_cfg).(result) = OK)
    by (vm_compute; reflexivity).
  destruct (process_quality [ok_at 50; ok_at 52; ok_at 51] default_cfg Hl) as [_ [Hq _]].
  split; [exact Hl|]. split; [exact Hok|]. exact (Hq Hok).
Defined.

Lemma process_median_is_sample_witness :
  length [ok_at 50; ok_at 52; timeout_reading; ok_at 51] < 256 /\
  default_cfg.(filter) = MEDIAN /\
  is_success (process [ok_at 50; ok_at 52; timeout_reading; ok_at 51] default_cfg).(result) = true /\
  In (process [ok_at 50; ok_at 52; timeout_reading; ok_at 51] default_cfg).(cm)
     (valid_samples [ok_at 50; ok_at 52; timeout_reading; ok_at 51]).
Proof.
  split; [simpl; lia|]. split; [reflexivity|]. split; [vm_compute; reflexivity|].
  apply (process_median_is_sample [ok_at 50; ok_at 52; timeout_reading; ok_at 51] default_cfg).
  - simpl; lia.
  - reflexivity.
  - vm_compute; reflexivity.
Defined.
